(** * VoxelVerse Shooter: the gameplay core, embedded and verified

    The development follows [src/components/Game.tsx], [src/hooks/useStore.ts]
    and the type declarations of [types]:

    - JavaScript numbers are IEEE 754 binary64 values, modelled by Rocq's
      primitive floats ([PrimFloat.float]); grid coordinates and
      [Date.now()] readings are integers and are modelled by [Z];
    - the React state of a component and the control store are threaded
      explicitly;
    - results of the physics and rendering engines (ray casts, the
      rotation of a vector by the camera) are inputs of the model. *)

From Stdlib Require Import ZArith Floats String Ascii DecimalString List Bool Lia.
From Stdlib Require Import DecimalPos DecimalZ.
Import ListNotations.
Local Open Scope Z_scope.
#[local] Set Warnings "-inexact-float".

(** ** types: blocks *)

Inductive BlockType := GRASS | DIRT | STONE | WOOD | LEAVES.

Definition Position : Type := (Z * Z * Z)%type.

Record Block := mkBlock {
  id : string;
  pos : Position;
  type : BlockType
}.

(** ** The three.js vectors used by the player controller

    three.js is a dependency of the program.  The methods the player
    controller calls on its vectors work component by component and are
    written out here on binary64 numbers; the rotation [applyEuler] is a
    parameter of the player's section. *)

Module THREE.

Record Vector3 := mkVector3 { x : float; y : float; z : float }.

(** [camera.rotation]: the three Euler angles of the camera. *)
Record Euler := mkEuler { ex : float; ey : float; ez : float }.

(** [new THREE.Vector3()] *)
Definition zero : Vector3 := mkVector3 0 0 0.

(** [target.subVectors(a, b)] *)
Definition subVectors (a b : Vector3) : Vector3 :=
  mkVector3 (x a - x b) (y a - y b) (z a - z b).

(** [v.multiplyScalar(s)] *)
Definition multiplyScalar (v : Vector3) (s : float) : Vector3 :=
  mkVector3 (x v * s) (y v * s) (z v * s).

(** [v.divideScalar(s)] is [v.multiplyScalar(1 / s)]. *)
Definition divideScalar (v : Vector3) (s : float) : Vector3 :=
  multiplyScalar v (1 / s).

(** [v.length()] *)
Definition length (v : Vector3) : float :=
  PrimFloat.sqrt (x v * x v + y v * y v + z v * z v).

(** JavaScript's [a || b] on numbers: [a] is falsy when it is [0], [-0]
    or [NaN]. *)
Definition js_or (a b : float) : float :=
  if (a =? 0)%float || PrimFloat.is_nan a then b else a.

(** Modelled from the spec: the body of [Vector3.normalize] belongs to
    three.js and is not part of the sources.  The spec requires that
    normalize guards the zero-length case rather than producing NaN;
    this is three.js's [this.divideScalar(this.length() || 1)]. *)
Definition normalize (v : Vector3) : Vector3 :=
  divideScalar v (js_or (length v) 1).

(** The normalisation without the guard, for comparison. *)
Definition normalize_unguarded (v : Vector3) : Vector3 :=
  divideScalar v (length v).

(** A component is [NaN]. *)
Definition has_nan (v : Vector3) : bool :=
  PrimFloat.is_nan (x v) || PrimFloat.is_nan (y v) || PrimFloat.is_nan (z v).

(** Every component is a zero ([0] or [-0], which JavaScript's [===]
    identifies). *)
Definition is_zero (v : Vector3) : bool :=
  (x v =? 0)%float && (y v =? 0)%float && (z v =? 0)%float.

End THREE.

(** ** hooks/useStore.ts *)

Record ControlsState := mkControls {
  forward : bool;
  backward : bool;
  left : bool;
  right : bool;
  jump : bool;
  fire : bool
}.

(** [Partial<ControlsState>]: an object literal that mentions some of the
    flags.  A flag that is not mentioned is [None]. *)
Record PartialControls := mkPartial {
  p_forward : option bool;
  p_backward : option bool;
  p_left : option bool;
  p_right : option bool;
  p_jump : option bool;
  p_fire : option bool
}.

Inductive Flag := Forward | Backward | Left | Right | Jump | Fire.

Definition flag (k : Flag) (s : ControlsState) : bool :=
  match k with
  | Forward => forward s
  | Backward => backward s
  | Left => left s
  | Right => right s
  | Jump => jump s
  | Fire => fire s
  end.

Definition mentioned (k : Flag) (p : PartialControls) : option bool :=
  match k with
  | Forward => p_forward p
  | Backward => p_backward p
  | Left => p_left p
  | Right => p_right p
  | Jump => p_jump p
  | Fire => p_fire p
  end.

(** One field of [Object.assign({}, state, partial)]. *)
Definition assign (old : bool) (new : option bool) : bool :=
  match new with
  | Some v => v
  | None => old
  end.

Module useStore.

(** The initial store: every flag is [false]. *)
Definition init : ControlsState :=
  mkControls false false false false false false.

(** [set: (state) => set(state)].  The inner [set] is the one zustand
    hands to the store creator; called with an object it replaces the
    store by [Object.assign({}, current, state)]. *)
Definition set (state : PartialControls) (current : ControlsState)
  : ControlsState :=
  {| forward := assign (forward current) (p_forward state);
     backward := assign (backward current) (p_backward state);
     left := assign (left current) (p_left state);
     right := assign (right current) (p_right state);
     jump := assign (jump current) (p_jump state);
     fire := assign (fire current) (p_fire state) |}.

End useStore.

(** The object literal [{}]. *)
Definition no_change : PartialControls :=
  mkPartial None None None None None None.

(** ** Constants of Game.tsx *)

Definition WORLD_SIZE : Z := 32.
Definition PLAYER_SPEED : float := 5%float.
Definition JUMP_FORCE : float := 6%float.

(** ** Player *)

(** [Math.fround]: the binary32 number nearest to a binary64 number (ties
    to even, overflow to infinity), as a binary64 number again. *)
Definition fround (a : float) : float :=
  match Prim2SF a with
  | S754_finite s m e => SF2Prim (binary_round 24 128 s m e)
  | _ => a
  end.

(** The rigid body of the player, as far as [useFrame] reads and writes it.
    [linvel()] builds a fresh vector on every call: the [velocity] of
    [useFrame] is a snapshot and does not follow later [setLinvel] calls. *)
Record RigidBody := mkBody {
  linvel : THREE.Vector3;
  translation : THREE.Vector3
}.

(** [body.setLinvel(v, true)].  The physics engine keeps velocities as
    binary32 numbers: what [linvel()] reads back is the rounding of what
    was written. *)
Definition setLinvel (v : THREE.Vector3) (body : RigidBody) : RigidBody :=
  {| linvel := THREE.mkVector3 (fround (THREE.x v)) (fround (THREE.y v))
                 (fround (THREE.z v));
     translation := translation body |}.

(** The physics world, which answers ray casts. *)
Inductive PhysicsWorld := physics_world.

(** [bodyRef.current.parent]: rigid bodies have no member [parent] (it is
    a method of colliders, and returns their rigid body).  On the body of
    the player the member is [undefined], and calling it throws a
    TypeError. *)
Definition parent (body : RigidBody) : option PhysicsWorld := None.

(** How a frame ends: the callback returns, or it throws; in both cases
    with the body as the frame has left it. *)
Inductive FrameResult :=
| Returned (bodyRef : option RigidBody)
| Threw (bodyRef : option RigidBody).

Definition body_after (r : FrameResult) : option RigidBody :=
  match r with
  | Returned bodyRef => bodyRef
  | Threw bodyRef => bodyRef
  end.

(** JavaScript truthiness of a ray-cast answer: a hit object is truthy,
    [null] is falsy. *)
Definition truthy {A : Type} (r : option A) : bool :=
  match r with
  | Some _ => true
  | None => false
  end.

Section Player.

(** [v.applyEuler(e)] rotates [v]; its body (trigonometry on the angles)
    belongs to three.js and is a parameter here. *)
Variable applyEuler : THREE.Euler -> THREE.Vector3 -> THREE.Vector3.

(** [world.castRay(new THREE.Ray(origin, {x: 0, y: -1, z: 0}), 1.1, true)]:
    the physics world answers with a hit (its time of impact) or [null]. *)
Variable castRay : PhysicsWorld -> THREE.Vector3 -> option float.

Definition frontVector (c : ControlsState) : THREE.Vector3 :=
  THREE.mkVector3 0 0
    ((if backward c then 1 else 0) - (if forward c then 1 else 0)).

Definition sideVector (c : ControlsState) : THREE.Vector3 :=
  THREE.mkVector3
    ((if left c then 1 else 0) - (if right c then 1 else 0)) 0 0.

(** [direction] before the rotation by the camera. *)
Definition local_direction (c : ControlsState) : THREE.Vector3 :=
  THREE.multiplyScalar
    (THREE.normalize (THREE.subVectors (frontVector c) (sideVector c)))
    PLAYER_SPEED.

Definition direction (rotation : THREE.Euler) (c : ControlsState)
  : THREE.Vector3 :=
  applyEuler rotation (local_direction c).

(** The body of the [useFrame] callback.  [bodyRef] is [None] while the
    ref is not attached.  The call of [parent()] throws when the member is
    missing; the frame then ends there, after the first [setLinvel]. *)
Definition useFrame (rotation : THREE.Euler) (c : ControlsState)
    (bodyRef : option RigidBody) : FrameResult :=
  match bodyRef with
  | None => Returned None
  | Some body =>
      let velocity := linvel body in
      let direction := direction rotation c in
      let body :=
        setLinvel
          (THREE.mkVector3 (THREE.x direction) (THREE.y velocity)
             (THREE.z direction)) body in
      match parent body with
      | None => Threw (Some body)
      | Some world =>
          let origin := translation body in
          let ray := castRay world origin in
          if jump c && truthy ray then
            Returned
              (Some (setLinvel
                       (THREE.mkVector3 (THREE.x velocity) JUMP_FORCE
                          (THREE.z velocity)) body))
          else Returned (Some body)
      end
  end.

(** The velocity handed to the first [setLinvel] of the frame. *)
Definition intent_velocity (rotation : THREE.Euler) (c : ControlsState)
    (body : RigidBody) : THREE.Vector3 :=
  let d := direction rotation c in
  THREE.mkVector3 (THREE.x d) (THREE.y (linvel body)) (THREE.z d).

End Player.

(** ** World: the fire effect *)

(** An entry of [raycaster.intersectObjects(...)]: the distance along the
    ray and [object.userData.id], which is [undefined] ([None]) for an
    object that is not a block. *)
Record Intersection := mkIntersection {
  distance : float;
  userData_id : option string
}.

(** The React state the effect reads and writes: [blocks] of [Game], the
    control store, and [lastShot] of [World]. *)
Record Session := mkSession {
  blocks : list Block;
  controls : ControlsState;
  lastShot : Z
}.

(** [useState<Block[]>([])], the initial store and [useState(0)]. *)
Definition initial_session : Session := mkSession [] useStore.init 0.

Definition setBlocks (f : list Block -> list Block) (s : Session) : Session :=
  mkSession (f (blocks s)) (controls s) (lastShot s).

Definition setControls (p : PartialControls) (s : Session) : Session :=
  mkSession (blocks s) (useStore.set p (controls s)) (lastShot s).

Definition setLastShot (t : Z) (s : Session) : Session :=
  mkSession (blocks s) (controls s) t.

(** [`${n}`] for an integer [n]: its decimal numeral, with a leading [-]
    when it is negative.  This is what JavaScript prints for the integers
    it represents exactly, those of [safe_integer]; beyond them a number
    is printed with fewer digits or an exponent. *)
Definition show (n : Z) : string := NilZero.string_of_int (Z.to_int n).

(** [Number.isSafeInteger]: the integers from -(2^53 - 1) to 2^53 - 1. *)
Definition safe_integer (n : Z) : Prop :=
  - (2 ^ 53 - 1) <= n <= 2 ^ 53 - 1.

Definition safe_position (p : Position) : Prop :=
  let '(p0, p1, p2) := p in
  safe_integer p0 /\ safe_integer p1 /\ safe_integer p2.

(** [prev => [...prev, newBlock]] *)
Definition handleAddBlock (p : Position) (prev : list Block) : list Block :=
  let '(p0, p1, p2) := p in
  let newBlock :=
    {| id := (show p0 ++ "-" ++ show p1 ++ "-" ++ show p2)%string;
       pos := p;
       type := STONE |} in
  prev ++ [newBlock].

(** [prev => prev.filter(block => block.id !== id)] *)
Definition handleRemoveBlock (i : string) (prev : list Block) : list Block :=
  filter (fun block => negb (String.eqb (id block) i)) prev.

(** [if (intersect.object.userData.id)]: [undefined] and the empty string
    are falsy. *)
Definition truthy_id (o : option string) : option string :=
  match o with
  | Some i => if String.eqb i "" then None else Some i
  | None => None
  end.

(** The body of the fire effect of [World].  [now] and [now'] are the two
    readings of [Date.now()]: the one compared with [lastShot] and the one
    stored by [setLastShot]. *)
Definition fireEffect (now now' : Z) (intersects : list Intersection)
    (s : Session) : Session :=
  if fire (controls s) && (200 <? now - lastShot s) then
    let s := setLastShot now' s in
    let s :=
      match intersects with
      | intersect :: _ =>
          match truthy_id (userData_id intersect) with
          | Some i => setBlocks (handleRemoveBlock i) s
          | None => s
          end
      | [] => s
      end in
    setControls (mkPartial None None None None None (Some false)) s
  else s.

(** ** Hud: keyboard, mouse and joystick handlers *)

Definition handleKeyDown (code : string) (c : ControlsState) : ControlsState :=
  let c := if String.eqb code "KeyW"
           then useStore.set (mkPartial (Some true) None None None None None) c
           else c in
  let c := if String.eqb code "KeyS"
           then useStore.set (mkPartial None (Some true) None None None None) c
           else c in
  let c := if String.eqb code "KeyA"
           then useStore.set (mkPartial None None (Some true) None None None) c
           else c in
  let c := if String.eqb code "KeyD"
           then useStore.set (mkPartial None None None (Some true) None None) c
           else c in
  if String.eqb code "Space"
  then useStore.set (mkPartial None None None None (Some true) None) c
  else c.

Definition handleKeyUp (code : string) (c : ControlsState) : ControlsState :=
  let c := if String.eqb code "KeyW"
           then useStore.set (mkPartial (Some false) None None None None None) c
           else c in
  let c := if String.eqb code "KeyS"
           then useStore.set (mkPartial None (Some false) None None None None) c
           else c in
  let c := if String.eqb code "KeyA"
           then useStore.set (mkPartial None None (Some false) None None None) c
           else c in
  let c := if String.eqb code "KeyD"
           then useStore.set (mkPartial None None None (Some false) None None) c
           else c in
  if String.eqb code "Space"
  then useStore.set (mkPartial None None None None (Some false) None) c
  else c.

Definition handleMouseDown (c : ControlsState) : ControlsState :=
  useStore.set (mkPartial None None None None None (Some true)) c.

(** The [data] of a joystick [move] event: [data.angle.degree] and
    [data.force]. *)
Record JoystickData := mkJoystick {
  angle_degree : float;
  force : float
}.

(** The object literal passed to [setControls] by the [move] handler. *)
Definition joystick_update (degree : float) : PartialControls :=
  {| p_forward := Some ((45 <? degree)%float && (degree <? 135)%float);
     p_backward := Some ((225 <? degree)%float && (degree <? 315)%float);
     p_right := Some ((degree <=? 45)%float || (315 <=? degree)%float);
     p_left := Some ((135 <=? degree)%float && (degree <=? 225)%float);
     p_jump := None;
     p_fire := None |}.

Definition onMove (data : JoystickData) (c : ControlsState) : ControlsState :=
  if (0.2 <? force data)%float
  then useStore.set (joystick_update (angle_degree data)) c
  else c.

Definition onEnd (c : ControlsState) : ControlsState :=
  useStore.set
    (mkPartial (Some false) (Some false) (Some false) (Some false) None None) c.

(** ** Game: world generation *)

(** [world.push(b)] *)
Definition push (world : list Block) (b : Block) : list Block := world ++ [b].

(** [for (let i = lo; i < hi; i++) body]: the loop threads the array
    through its body; [fuel] bounds the number of iterations. *)
Fixpoint for_loop (fuel : nat) (i hi : Z)
    (body : Z -> list Block -> list Block) (world : list Block) : list Block :=
  match fuel with
  | O => world
  | S fuel =>
      if i <? hi then for_loop fuel (i + 1) hi body (body i world) else world
  end.

Definition for_range (lo hi : Z) (body : Z -> list Block -> list Block)
    (world : list Block) : list Block :=
  for_loop (Z.to_nat (hi - lo)) lo hi body world.

(** The body of the world-generation effect, up to [setBlocks(world)]. *)
Definition generate : list Block :=
  let world := [] in
  let world :=
    for_range (- WORLD_SIZE / 2) (WORLD_SIZE / 2) (fun x world =>
      for_range (- WORLD_SIZE / 2) (WORLD_SIZE / 2) (fun z world =>
        let world :=
          push world (mkBlock (show x ++ "-0-" ++ show z) (x, 0, z) STONE) in
        let world :=
          push world (mkBlock (show x ++ "-1-" ++ show z) (x, 1, z) DIRT) in
        push world (mkBlock (show x ++ "-2-" ++ show z) (x, 2, z) GRASS))
        world) world in
  let world := push world (mkBlock "0-3-0" (0, 3, 0) WOOD) in
  let world := push world (mkBlock "0-4-0" (0, 4, 0) WOOD) in
  let world := push world (mkBlock "0-5-0" (0, 5, 0) LEAVES) in
  let world := push world (mkBlock "1-4-0" (1, 4, 0) LEAVES) in
  let world := push world (mkBlock "-1-4-0" (-1, 4, 0) LEAVES) in
  let world := push world (mkBlock "0-4-1" (0, 4, 1) LEAVES) in
  push world (mkBlock "0-4--1" (0, 4, -1) LEAVES).

(** ** The specification's vocabulary *)

(** The id derived from a position: ["x-y-z"]. *)
Definition id_derived_from (p : Position) : string :=
  let '(px, py, pz) := p in
  (show px ++ "-" ++ show py ++ "-" ++ show pz)%string.

(** The block the generator puts at a grid position of the terrain. *)
Definition layer (py : Z) : BlockType :=
  if py =? 0 then STONE else if py =? 1 then DIRT else GRASS.

Definition terrain_block (px py pz : Z) : Block :=
  mkBlock (id_derived_from (px, py, pz)) (px, py, pz) (layer py).

(** The integers of [[lo, lo + n)], in increasing order. *)
Fixpoint zrange (lo : Z) (n : nat) : list Z :=
  match n with
  | O => []
  | S n => lo :: zrange (lo + 1) n
  end.

(** The terrain in generation order: x outermost, then z, then the three
    layers. *)
Definition terrain : list Block :=
  flat_map (fun px =>
    flat_map (fun pz => map (fun py => terrain_block px py pz) [0; 1; 2])
      (zrange (-16) 32))
    (zrange (-16) 32).

(** The fixed tree: WOOD at y = 3, 4; LEAVES at y = 5 and at the four
    horizontal neighbours of y = 4. *)
Definition tree : list Block :=
  [ mkBlock (id_derived_from (0, 3, 0)) (0, 3, 0) WOOD;
    mkBlock (id_derived_from (0, 4, 0)) (0, 4, 0) WOOD;
    mkBlock (id_derived_from (0, 5, 0)) (0, 5, 0) LEAVES;
    mkBlock (id_derived_from (1, 4, 0)) (1, 4, 0) LEAVES;
    mkBlock (id_derived_from (-1, 4, 0)) (-1, 4, 0) LEAVES;
    mkBlock (id_derived_from (0, 4, 1)) (0, 4, 1) LEAVES;
    mkBlock (id_derived_from (0, 4, -1)) (0, 4, -1) LEAVES ].

(** The joystick's angle partition, as the specification words it. *)
Module AnglePartition.
Definition is_right (a : float) : bool :=
  ((0 <=? a)%float && (a <=? 45)%float)
  || ((315 <=? a)%float && (a <? 360)%float).
Definition is_forward (a : float) : bool :=
  (45 <? a)%float && (a <? 135)%float.
Definition is_left (a : float) : bool :=
  (135 <=? a)%float && (a <=? 225)%float.
Definition is_backward (a : float) : bool :=
  (225 <? a)%float && (a <? 315)%float.
End AnglePartition.

(** The intent vector, as the specification words it: the front axis value
    placed on the camera-forward axis and the side axis value placed on the
    camera-right axis, combined, normalized, scaled by the speed 5 and
    rotated.  The axes are those of the camera's own frame: it looks along
    its z axis (towards negative z) and its x axis points to its right.
    Nothing here uses the vector operations of the program. *)
Module Intent.
Definition front_axis (c : ControlsState) : float :=
  (if backward c then 1 else 0) - (if forward c then 1 else 0).
Definition side_axis (c : ControlsState) : float :=
  (if left c then 1 else 0) - (if right c then 1 else 0).
Definition on_forward_axis (a : float) : THREE.Vector3 :=
  THREE.mkVector3 0 0 a.
Definition on_right_axis (a : float) : THREE.Vector3 :=
  THREE.mkVector3 a 0 0.
(** The closed form of a component of the normalized and scaled vector:
    [plus] and [minus] are the two keys of its axis, [other] tells whether
    the other axis has a non-zero value. *)
Definition component (plus minus other : bool) : float :=
  if xorb plus minus then
    let speed := if other then 3.5355339059327373%float else 5%float in
    if plus then speed else (- speed)%float
  else 0%float.
(** Two vectors combined: their sum. *)
Definition combine (u v : THREE.Vector3) : THREE.Vector3 :=
  THREE.mkVector3 (THREE.x u + THREE.x v) (THREE.y u + THREE.y v)
    (THREE.z u + THREE.z v).
(** The difference of two vectors. *)
Definition difference (u v : THREE.Vector3) : THREE.Vector3 :=
  THREE.mkVector3 (THREE.x u - THREE.x v) (THREE.y u - THREE.y v)
    (THREE.z u - THREE.z v).
(** The Euclidean norm. *)
Definition norm (v : THREE.Vector3) : float :=
  PrimFloat.sqrt
    (THREE.x v * THREE.x v + THREE.y v * THREE.y v + THREE.z v * THREE.z v).
(** A vector normalized: every component divided by the norm; a vector of
    norm zero has no direction and gives the zero vector. *)
Definition normalized (v : THREE.Vector3) : THREE.Vector3 :=
  if (norm v =? 0)%float then THREE.mkVector3 0 0 0
  else THREE.mkVector3 (THREE.x v / norm v) (THREE.y v / norm v)
         (THREE.z v / norm v).
(** A vector scaled by a number. *)
Definition scaled (k : float) (v : THREE.Vector3) : THREE.Vector3 :=
  THREE.mkVector3 (k * THREE.x v) (k * THREE.y v) (k * THREE.z v).
(** The intent vector as stated: the two axis vectors combined. *)
Definition intent
    (rotate : THREE.Euler -> THREE.Vector3 -> THREE.Vector3)
    (rotation : THREE.Euler) (c : ControlsState) : THREE.Vector3 :=
  rotate rotation
    (scaled 5
       (normalized
          (combine (on_forward_axis (front_axis c))
             (on_right_axis (side_axis c))))).
(** The intent vector as amended: the side vector is subtracted from the
    front vector. *)
Definition intent_amended
    (rotate : THREE.Euler -> THREE.Vector3 -> THREE.Vector3)
    (rotation : THREE.Euler) (c : ControlsState) : THREE.Vector3 :=
  rotate rotation
    (scaled 5
       (normalized
          (difference (on_forward_axis (front_axis c))
             (on_right_axis (side_axis c))))).
End Intent.

(** A boolean test that no two strings of a list are equal. *)
Fixpoint distinct (l : list string) : bool :=
  match l with
  | [] => true
  | s :: l => negb (existsb (String.eqb s) l) && distinct l
  end.

(** ** Further vocabulary: the store, the keys and the joystick *)

(** The update that has the effect of [first] followed by [second]: a flag
    mentioned by [second] wins. *)
Definition override (first second : PartialControls) : PartialControls :=
  {| p_forward := match p_forward second with
                  | Some v => Some v | None => p_forward first end;
     p_backward := match p_backward second with
                   | Some v => Some v | None => p_backward first end;
     p_left := match p_left second with
               | Some v => Some v | None => p_left first end;
     p_right := match p_right second with
                | Some v => Some v | None => p_right first end;
     p_jump := match p_jump second with
               | Some v => Some v | None => p_jump first end;
     p_fire := match p_fire second with
               | Some v => Some v | None => p_fire first end |}.

(** The key bound to a flag by [handleKeyDown] and [handleKeyUp]; no key
    is bound to [fire]. *)
Definition bound_code (k : Flag) : option string :=
  match k with
  | Forward => Some "KeyW"%string
  | Backward => Some "KeyS"%string
  | Left => Some "KeyA"%string
  | Right => Some "KeyD"%string
  | Jump => Some "Space"%string
  | Fire => None
  end.

(** The number of directional flags that are set. *)
Definition directions_set (c : ControlsState) : nat :=
  (Nat.b2n (forward c) + Nat.b2n (backward c) + Nat.b2n (left c)
   + Nat.b2n (right c))%nat.

(** ** The order of binary64 numbers

    A number that is not NaN has a key; the comparisons of the numbers are
    the lexicographic comparisons of the keys. *)
Definition order_key (f : spec_float) : option (Z * Z * Z) :=
  match f with
  | S754_nan => None
  | S754_infinity true => Some (-2, 0, 0)
  | S754_infinity false => Some (2, 0, 0)
  | S754_zero _ => Some (0, 0, 0)
  | S754_finite true m e => Some (-1, - e, Zneg m)
  | S754_finite false m e => Some (1, e, Zpos m)
  end.

Definition key_lt (a b : Z * Z * Z) : Prop :=
  let '(a1, a2, a3) := a in
  let '(b1, b2, b3) := b in
  a1 < b1 \/ (a1 = b1 /\ (a2 < b2 \/ (a2 = b2 /\ a3 < b3))).

Definition key_le (a b : Z * Z * Z) : Prop :=
  let '(a1, a2, a3) := a in
  let '(b1, b2, b3) := b in
  a1 < b1 \/ (a1 = b1 /\ (a2 < b2 \/ (a2 = b2 /\ a3 <= b3))).

Definition float_lt (a b : float) : Prop :=
  match order_key (Prim2SF a), order_key (Prim2SF b) with
  | Some ka, Some kb => key_lt ka kb
  | _, _ => False
  end.

Definition float_le (a b : float) : Prop :=
  match order_key (Prim2SF a), order_key (Prim2SF b) with
  | Some ka, Some kb => key_le ka kb
  | _, _ => False
  end.

(** ** Further vocabulary: the world *)

(** No character of the string is ["-"]. *)
Fixpoint nodash (s : string) : bool :=
  match s with
  | EmptyString => true
  | String c s => negb (Ascii.eqb c "-") && nodash s
  end.

(** The invariant of the world: no two blocks share an id, and the id of
    every block is the one derived from its position. *)
Definition well_formed (w : list Block) : Prop :=
  NoDup (map id w) /\ forall b : Block, In b w -> id b = id_derived_from (pos b).

(** One run of the fire effect, preceded by what the input layer wrote to
    the control store since the last run. *)
Record FireRun := mkFireRun {
  run_input : PartialControls;
  run_now : Z;
  run_now' : Z;
  run_hits : list Intersection
}.

Definition play (runs : list FireRun) (s : Session) : Session :=
  fold_left
    (fun s r =>
       fireEffect (run_now r) (run_now' r) (run_hits r)
         (setControls (run_input r) s))
    runs s.

(** ** services/geminiService: the name of the world *)

Module geminiService.

(** A JavaScript string: its UTF-16 code units. *)
Definition JSString : Type := list N.

(** A string literal of the source (ASCII). *)
Definition lit (s : string) : JSString :=
  map N_of_ascii (list_ascii_of_string s).

(** The code units [String.prototype.trim] strips: WhiteSpace (TAB, VT,
    FF, the space separators, ZWNBSP) and LineTerminator (LF, CR, LS, PS). *)
Definition is_whitespace (u : N) : bool :=
  ((u =? 9) || (u =? 10) || (u =? 11) || (u =? 12) || (u =? 13)
   || (u =? 32) || (u =? 160) || (u =? 5760)
   || ((8192 <=? u) && (u <=? 8202))
   || (u =? 8232) || (u =? 8233) || (u =? 8239) || (u =? 8287)
   || (u =? 12288) || (u =? 65279))%N.

Fixpoint trimStart (s : JSString) : JSString :=
  match s with
  | [] => []
  | u :: rest => if is_whitespace u then trimStart rest else s
  end.

Definition trimEnd (s : JSString) : JSString := rev (trimStart (rev s)).

(** [s.trim()] *)
Definition trim (s : JSString) : JSString := trimEnd (trimStart s).

(** The class of the regular expression: double quote, apostrophe and
    asterisk. *)
Definition in_class (u : N) : bool := ((u =? 34) || (u =? 39) || (u =? 42))%N.

(** [s.replace(/[...]/g, '')] with that class. *)
Definition replace_class (s : JSString) : JSString :=
  filter (fun u => negb (in_class u)) s.

(** The way [ai.models.generateContent] ends: it throws (the promise
    rejects), or it answers with a response whose [text] is a string or
    [undefined]. *)
Inductive Outcome :=
| Rejected
| Resolved (text : option JSString).

(** JavaScript truthiness of [process.env.API_KEY]: [undefined] and the
    empty string are falsy. *)
Definition key_present (API_KEY : option JSString) : bool :=
  match API_KEY with
  | Some (_ :: _) => true
  | _ => false
  end.

(** The value the promise of [generateWorldName] resolves with.  Reading
    [.trim()] off an [undefined] text throws inside the [try]. *)
Definition generateWorldName (API_KEY : option JSString) (outcome : Outcome)
  : JSString :=
  if negb (key_present API_KEY) then lit "Crystal Canyons"
  else
    match outcome with
    | Resolved (Some text) =>
        let name := replace_class (trim text) in
        match name with
        | [] => lit "The Forgotten Realm"
        | _ :: _ => name
        end
    | Resolved None => lit "The Glitched Frontier"
    | Rejected => lit "The Glitched Frontier"
    end.

End geminiService.

(** ** App: the landing page *)

Module App.

Record State := mkState {
  worldName : geminiService.JSString;
  isGameStarted : bool;
  isLoading : bool
}.

(** The three [useState] initial values. *)
Definition init : State :=
  mkState (geminiService.lit "The Blocky Expanse") false true.

(** What the page shows: the game, or the landing page with its name line
    and, once loading is over, the start button. *)
Inductive View :=
| GameView
| Landing (name_line : geminiService.JSString) (button : bool).

Definition render (s : State) : View :=
  if isGameStarted s then GameView
  else Landing
         (if isLoading s then geminiService.lit "Generating name..."
          else worldName s)
         (negb (isLoading s)).

(** [fetchName], once [generateWorldName] has settled: [Some name] when
    its promise resolved, [None] when it rejected. *)
Definition fetchName (settled : option geminiService.JSString) (s : State)
  : State :=
  let s := match settled with
           | Some name => mkState name (isGameStarted s) (isLoading s)
           | None => s
           end in
  mkState (worldName s) (isGameStarted s) false.

(** [onClick] of the start button. *)
Definition onClick (s : State) : State :=
  mkState (worldName s) true (isLoading s).

(** The events of the page.  A click reaches [onClick] only when the
    button is rendered. *)
Inductive Event :=
| Settled (API_KEY : option geminiService.JSString)
    (outcome : geminiService.Outcome)
| Click.

Definition step (s : State) (e : Event) : State :=
  match e with
  | Settled API_KEY outcome =>
      fetchName (Some (geminiService.generateWorldName API_KEY outcome)) s
  | Click =>
      match render s with
      | Landing _ true => onClick s
      | _ => s
      end
  end.

Definition run (events : list Event) : State := fold_left step events init.

End App.

(** * Theorems *)

(** ** The control store *)

Lemma set_flag (p : PartialControls) (s : ControlsState) (k : Flag) :
  flag k (useStore.set p s) = assign (flag k s) (mentioned k p).
Proof. destruct k; reflexivity. Qed.

Lemma set_no_change (s : ControlsState) : useStore.set no_change s = s.
Proof. destruct s; reflexivity. Qed.

(** C10.  [set] merges a partial update: a flag that the argument does not
    mention keeps the value it had in the store. *)
Theorem set_keeps_unmentioned_flags :
  forall (p : PartialControls) (s : ControlsState) (k : Flag),
    mentioned k p = None ->
    flag k (useStore.set p s) = flag k s.
Proof.
  intros p s k Hk. rewrite set_flag, Hk. reflexivity.
Qed.

(** Clearing only [fire] leaves the five other flags as they were. *)
Lemma set_keeps_unmentioned_flags_witness :
  mentioned Forward (mkPartial None None None None None (Some false)) = None
  /\ flag Forward
       (useStore.set (mkPartial None None None None None (Some false))
          (mkControls true true true true true true))
     = true.
Proof.
  split; [reflexivity |].
  exact (set_keeps_unmentioned_flags
           (mkPartial None None None None None (Some false))
           (mkControls true true true true true true) Forward eq_refl).
Defined.

Lemma clear_fire_only (s : ControlsState) :
  useStore.set (mkPartial None None None None None (Some false)) s
  = mkControls (forward s) (backward s) (left s) (right s) (jump s) false.
Proof. reflexivity. Qed.

Lemma set_mentioned_flag (p : PartialControls) (s : ControlsState) (k : Flag)
    (v : bool) :
  mentioned k p = Some v -> flag k (useStore.set p s) = v.
Proof. intros Hk. rewrite set_flag, Hk. reflexivity. Qed.

(** ** The world: add and remove *)

Lemma handleAddBlock_id (p : Position) (prev : list Block) :
  handleAddBlock p prev = prev ++ [mkBlock (id_derived_from p) p STONE].
Proof. destruct p as [[p0 p1] p2]. reflexivity. Qed.

Lemma handleRemoveBlock_app (i : string) (l1 l2 : list Block) :
  handleRemoveBlock i (l1 ++ l2)
  = handleRemoveBlock i l1 ++ handleRemoveBlock i l2.
Proof. unfold handleRemoveBlock. apply filter_app. Qed.

(** Removing an id that no block carries is a no-op. *)
Lemma handleRemoveBlock_absent (i : string) (w : list Block) :
  ~ In i (map id w) -> handleRemoveBlock i w = w.
Proof.
  induction w as [| b w IH]; intros Hi; [reflexivity |].
  simpl in *. destruct (String.eqb_spec (id b) i) as [E | E].
  - exfalso. apply Hi. left. exact E.
  - simpl. f_equal. apply IH. intros H. apply Hi. right. exact H.
Qed.

(** When the id is in use, add-then-remove removes the earlier holders of
    the id together with the new block. *)
Lemma add_then_remove (p : Position) (w : list Block) :
  handleRemoveBlock (id_derived_from p) (handleAddBlock p w)
  = handleRemoveBlock (id_derived_from p) w.
Proof.
  rewrite handleAddBlock_id, handleRemoveBlock_app.
  unfold handleRemoveBlock at 2. simpl.
  rewrite String.eqb_refl. simpl. apply app_nil_r.
Qed.

(** C2, as stated, fails: adding at a position whose id is in use and then
    removing that id also removes the block that was there before.  With
    the world holding one block at (0, 0, 0), add at (0, 0, 0) followed by
    remove of ["0-0-0"] leaves the empty world. *)
Lemma add_remove_collision_counterexample :
  let w := [mkBlock "0-0-0" (0, 0, 0) STONE] in
  let p := (0, 0, 0) in
  In (id_derived_from p) (map id w)
  /\ handleAddBlock p w
     = [mkBlock "0-0-0" (0, 0, 0) STONE; mkBlock "0-0-0" (0, 0, 0) STONE]
  /\ handleRemoveBlock (id_derived_from p) (handleAddBlock p w) = []
  /\ ~ (forall b : Block,
          In b (handleRemoveBlock (id_derived_from p) (handleAddBlock p w))
          <-> In b w).
Proof.
  intros w p. repeat apply conj.
  - left. reflexivity.
  - reflexivity.
  - reflexivity.
  - intros H.
    destruct (H (mkBlock "0-0-0" (0, 0, 0) STONE)) as [_ Hback].
    assert (Hin : In (mkBlock "0-0-0" (0, 0, 0) STONE)
                    (handleRemoveBlock (id_derived_from p) (handleAddBlock p w)))
      by (apply Hback; left; reflexivity).
    exact Hin.
Qed.

(** C2, amended.  For every world and every position whose derived id does
    not occur in the world, add followed by remove of the derived id gives
    back the world, block for block and in the same order. *)
Theorem add_remove_round_trip :
  forall (w : list Block) (p : Position),
    ~ In (id_derived_from p) (map id w) ->
    handleRemoveBlock (id_derived_from p) (handleAddBlock p w) = w.
Proof.
  intros w p Hp. rewrite add_then_remove.
  apply handleRemoveBlock_absent. exact Hp.
Qed.

Lemma add_remove_round_trip_witness :
  handleRemoveBlock (id_derived_from (2, 3, -1))
    (handleAddBlock (2, 3, -1)
       [mkBlock "0-3-0" (0, 3, 0) WOOD; mkBlock "0-4--1" (0, 4, -1) LEAVES])
  = [mkBlock "0-3-0" (0, 3, 0) WOOD; mkBlock "0-4--1" (0, 4, -1) LEAVES].
Proof.
  apply add_remove_round_trip.
  simpl. intros [H | [H | []]]; discriminate H.
Defined.

(** ** The fire effect *)

Lemma fireEffect_not_ready (now now' : Z) (hits : list Intersection)
    (s : Session) :
  fire (controls s) && (200 <? now - lastShot s) = false ->
  fireEffect now now' hits s = s.
Proof. unfold fireEffect. intros ->. reflexivity. Qed.

(** What a processed shot does, in one equation. *)
Lemma fireEffect_ready (now now' : Z) (hits : list Intersection)
    (s : Session) :
  fire (controls s) = true -> 200 < now - lastShot s ->
  fireEffect now now' hits s
  = mkSession
      (match hits with
       | intersect :: _ =>
           match truthy_id (userData_id intersect) with
           | Some i => handleRemoveBlock i (blocks s)
           | None => blocks s
           end
       | [] => blocks s
       end)
      (mkControls (forward (controls s)) (backward (controls s))
         (left (controls s)) (right (controls s)) (jump (controls s)) false)
      now'.
Proof.
  intros Hf Ht. unfold fireEffect. rewrite Hf.
  apply Z.ltb_lt in Ht. rewrite Ht. simpl.
  destruct hits as [| intersect hits]; [reflexivity |].
  destruct (truthy_id (userData_id intersect)); reflexivity.
Qed.

(** C6.  The cooldown is enforced.  Let a shot be processed (the flag is
    set and the cooldown has elapsed) and [t] be the time it records.  Then
    whatever the controls have become since, [fire] forced to [true]
    included, the effect run at a time [t'] with [t' - t <= 200] changes
    nothing: no block is removed. *)
Theorem fire_cooldown_enforced :
  forall (s : Session) (now t : Z) (hits : list Intersection)
         (c : ControlsState) (t' t'' : Z) (hits' : list Intersection),
    fire (controls s) = true ->
    200 < now - lastShot s ->
    t' - t <= 200 ->
    let s1 := fireEffect now t hits s in
    let s2 := mkSession (blocks s1) c (lastShot s1) in
    lastShot s1 = t
    /\ fireEffect t' t'' hits' s2 = s2
    /\ blocks (fireEffect t' t'' hits' s2) = blocks s1.
Proof.
  intros s now t hits c t' t'' hits' Hf Hnow Ht' s1 s2.
  assert (Hlast : lastShot s1 = t).
  { unfold s1. rewrite (fireEffect_ready now t hits s Hf Hnow). reflexivity. }
  assert (Hsame : fireEffect t' t'' hits' s2 = s2).
  { apply fireEffect_not_ready. unfold s2. simpl. rewrite Hlast.
    apply andb_false_iff. right. apply Z.ltb_ge. exact Ht'. }
  repeat split; [exact Hlast | exact Hsame |].
  rewrite Hsame. reflexivity.
Qed.

(** A shot at time 1000 removes the block ahead; 200 ms later, with [fire]
    forced to [true] and another block ahead, nothing is removed. *)
Lemma fire_cooldown_enforced_witness :
  let s := mkSession
             [mkBlock "0-2-0" (0, 2, 0) GRASS; mkBlock "0-2--1" (0, 2, -1) GRASS]
             (mkControls false false false false false true) 0 in
  let s1 := fireEffect 1000 1000 [mkIntersection 3 (Some "0-2--1"%string)] s in
  let s2 := mkSession (blocks s1) (mkControls false false false false false true)
              (lastShot s1) in
  blocks s1 = [mkBlock "0-2-0" (0, 2, 0) GRASS]
  /\ lastShot s1 = 1000
  /\ fireEffect 1200 1200 [mkIntersection 3 (Some "0-2-0"%string)] s2 = s2
  /\ blocks (fireEffect 1200 1200 [mkIntersection 3 (Some "0-2-0"%string)] s2)
     = blocks s1.
Proof.
  intros s s1 s2. split; [reflexivity |].
  exact (fire_cooldown_enforced s 1000 1000
           [mkIntersection 3 (Some "0-2--1"%string)]
           (mkControls false false false false false true) 1200 1200
           [mkIntersection 3 (Some "0-2-0"%string)]
           eq_refl eq_refl (fun H => match H with eq_refl => I end)).
Defined.

(** The cooldown is strict: 201 ms after a shot the next one is processed. *)
Lemma fire_after_cooldown :
  blocks
    (fireEffect 1201 1201 [mkIntersection 3 (Some "0-2-0"%string)]
       (mkSession [mkBlock "0-2-0" (0, 2, 0) GRASS]
          (mkControls false false false false false true) 1000))
  = [].
Proof. reflexivity. Qed.

(** C8.  Whenever the effect processes a fire event (the flag is set and
    the cooldown has elapsed), the flag is cleared afterwards, for every
    answer of the ray cast: a hit on a block, a miss, or a hit on an object
    without block id.  The other flags are left alone. *)
Theorem fire_flag_cleared :
  forall (s : Session) (now now' : Z) (hits : list Intersection),
    fire (controls s) = true ->
    200 < now - lastShot s ->
    fire (controls (fireEffect now now' hits s)) = false
    /\ forall k, k <> Fire ->
         flag k (controls (fireEffect now now' hits s)) = flag k (controls s).
Proof.
  intros s now now' hits Hf Hnow.
  rewrite (fireEffect_ready now now' hits s Hf Hnow). simpl.
  split; [reflexivity |].
  intros k Hk. destruct k; try reflexivity. contradiction Hk. reflexivity.
Qed.

(** The three answers of the ray cast, on a one-block world. *)
Lemma fire_flag_cleared_witness :
  let s := mkSession [mkBlock "0-2-0" (0, 2, 0) GRASS]
             (mkControls true false false false true true) 0 in
  (fire (controls (fireEffect 500 500 [mkIntersection 3 (Some "0-2-0"%string)] s))
   = false
   /\ forall k, k <> Fire ->
        flag k (controls (fireEffect 500 500
                            [mkIntersection 3 (Some "0-2-0"%string)] s))
        = flag k (controls s))
  /\ (fire (controls (fireEffect 500 500 [] s)) = false
      /\ forall k, k <> Fire ->
           flag k (controls (fireEffect 500 500 [] s)) = flag k (controls s))
  /\ (fire (controls (fireEffect 500 500 [mkIntersection 3 None] s)) = false
      /\ forall k, k <> Fire ->
           flag k (controls (fireEffect 500 500 [mkIntersection 3 None] s))
           = flag k (controls s)).
Proof.
  intros s. repeat apply conj.
  - exact (proj1 (fire_flag_cleared s 500 500
                    [mkIntersection 3 (Some "0-2-0"%string)] eq_refl eq_refl)).
  - exact (proj2 (fire_flag_cleared s 500 500
                    [mkIntersection 3 (Some "0-2-0"%string)] eq_refl eq_refl)).
  - exact (proj1 (fire_flag_cleared s 500 500 [] eq_refl eq_refl)).
  - exact (proj2 (fire_flag_cleared s 500 500 [] eq_refl eq_refl)).
  - exact (proj1 (fire_flag_cleared s 500 500 [mkIntersection 3 None]
                    eq_refl eq_refl)).
  - exact (proj2 (fire_flag_cleared s 500 500 [mkIntersection 3 None]
                    eq_refl eq_refl)).
Defined.

(** Firing at an empty world: a miss, nothing is mutated, the flag is
    cleared and the shot time recorded. *)
Lemma fire_at_empty_world (now now' : Z) (c : ControlsState) (t : Z) :
  fire c = true -> 200 < now - t ->
  fireEffect now now' [] (mkSession [] c t)
  = mkSession []
      (mkControls (forward c) (backward c) (left c) (right c) (jump c) false)
      now'.
Proof. intros Hf Ht. apply (fireEffect_ready now now' [] (mkSession [] c t) Hf Ht). Qed.

(** A hit whose object carries no id, or the empty id, removes nothing. *)
Lemma fire_without_id (now now' : Z) (d : float) (rest : list Intersection)
    (s : Session) (o : option string) :
  truthy_id o = None ->
  blocks (fireEffect now now' (mkIntersection d o :: rest) s) = blocks s.
Proof.
  intros Ho. unfold fireEffect.
  destruct (fire (controls s) && (200 <? now - lastShot s)); [| reflexivity].
  simpl. rewrite Ho. reflexivity.
Qed.

(** ** The joystick *)

(** The order of binary64 values: comparing the other way round gives the
    opposite answer, and no answer when an operand is NaN. *)
Lemma SFcompare_antisym (a b : spec_float) :
  SFcompare b a = option_map CompOpp (SFcompare a b).
Proof.
  destruct a as [sa | sa | | sa ma ea], b as [sb | sb | | sb mb eb]; simpl;
    try reflexivity;
    try (destruct sa; reflexivity); try (destruct sb; reflexivity);
    try (destruct sa, sb; reflexivity).
  destruct sa, sb; try reflexivity;
    rewrite (Z.compare_antisym ea eb);
    destruct (ea ?= eb)%Z eqn:E; simpl; try reflexivity;
    rewrite ?CompOpp_involutive.
  - rewrite (Pos.compare_cont_antisym mb ma Eq). reflexivity.
  - rewrite (Pos.compare_cont_antisym ma mb Eq). reflexivity.
Qed.

(** [a <= b] excludes [a > b]. *)
Lemma leb_not_ltb (a b : float) :
  (a <=? b)%float = true -> (b <? a)%float = false.
Proof.
  rewrite FloatAxioms.leb_spec, FloatAxioms.ltb_spec. unfold SFleb, SFltb.
  rewrite (SFcompare_antisym (Prim2SF a) (Prim2SF b)).
  destruct (SFcompare (Prim2SF a) (Prim2SF b)) as [[ | | ] |]; simpl; congruence.
Qed.

(** Below the threshold, and for a force that is NaN, nothing changes. *)
Lemma onMove_weak (data : JoystickData) (c : ControlsState) :
  (0.2 <? force data)%float = false -> onMove data c = c.
Proof. unfold onMove. intros ->. reflexivity. Qed.

Lemma onMove_strong (data : JoystickData) (c : ControlsState) :
  (0.2 <? force data)%float = true ->
  onMove data c
  = let a := angle_degree data in
    mkControls ((45 <? a)%float && (a <? 135)%float)
      ((225 <? a)%float && (a <? 315)%float)
      ((135 <=? a)%float && (a <=? 225)%float)
      ((a <=? 45)%float || (315 <=? a)%float)
      (jump c) (fire c).
Proof. unfold onMove. intros ->. reflexivity. Qed.

(** On the angles of the circle, the test the handler uses for [right] is
    the specification's [[0, 45] ∪ [315, 360)]. *)
Lemma right_test_on_circle (a : float) :
  (0 <=? a)%float = true -> (a <? 360)%float = true ->
  (a <=? 45)%float || (315 <=? a)%float = AnglePartition.is_right a.
Proof.
  intros H0 H360. unfold AnglePartition.is_right.
  rewrite H0, H360, andb_true_r. reflexivity.
Qed.

(** C9.  For an angle of the circle, [0 <= angle < 360], the joystick
    handler sets exactly the directions of the specification's partition
    when the force exceeds 0.2 (and leaves [jump] and [fire] alone), and
    changes nothing when the force is at most 0.2.  In particular, angle 90
    with force 0.5 gives [forward] alone. *)
Theorem onMove_angle_partition :
  forall (data : JoystickData) (c : ControlsState),
    (0 <=? angle_degree data)%float = true ->
    (angle_degree data <? 360)%float = true ->
    ((force data <=? 0.2)%float = true -> onMove data c = c)
    /\ ((0.2 <? force data)%float = true ->
        right (onMove data c) = AnglePartition.is_right (angle_degree data)
        /\ forward (onMove data c)
           = AnglePartition.is_forward (angle_degree data)
        /\ left (onMove data c) = AnglePartition.is_left (angle_degree data)
        /\ backward (onMove data c)
           = AnglePartition.is_backward (angle_degree data)
        /\ jump (onMove data c) = jump c
        /\ fire (onMove data c) = fire c)
    /\ onMove (mkJoystick 90 0.5) c
       = mkControls true false false false (jump c) (fire c).
Proof.
  intros data c H0 H360. repeat apply conj.
  - intros Hweak. apply onMove_weak. apply leb_not_ltb. exact Hweak.
  - intros Hstrong. rewrite (onMove_strong data c Hstrong). simpl.
    rewrite (right_test_on_circle _ H0 H360). repeat split.
  - reflexivity.
Qed.

(** Angle 315 belongs to [right]; with force 0.5 the handler sets [right]
    alone, and with force 0.2 it changes nothing. *)
Lemma onMove_angle_partition_witness :
  let c := mkControls true false false false true false in
  (onMove (mkJoystick 315 0.2) c = c)
  /\ (right (onMove (mkJoystick 315 0.5) c) = true
      /\ forward (onMove (mkJoystick 315 0.5) c) = false
      /\ left (onMove (mkJoystick 315 0.5) c) = false
      /\ backward (onMove (mkJoystick 315 0.5) c) = false
      /\ jump (onMove (mkJoystick 315 0.5) c) = true
      /\ fire (onMove (mkJoystick 315 0.5) c) = false).
Proof.
  intros c. split.
  - exact (proj1 (onMove_angle_partition (mkJoystick 315 0.2) c eq_refl eq_refl)
             eq_refl).
  - exact (proj1 (proj2 (onMove_angle_partition (mkJoystick 315 0.5) c
                           eq_refl eq_refl)) eq_refl).
Defined.

(** Outside the circle the handler's test for [right] and the partition
    part ways: the partition has no direction for 400 degrees. *)
Lemma right_test_beyond_circle :
  right (onMove (mkJoystick 400 0.5) useStore.init) = true
  /\ AnglePartition.is_right 400 = false.
Proof. split; reflexivity. Qed.

(** On the circle exactly the boundaries 45, 135, 225 and 315 go to
    [right], [left], [left] and [right]. *)
Lemma onMove_boundaries :
  onMove (mkJoystick 45 1) useStore.init
  = mkControls false false false true false false
  /\ onMove (mkJoystick 135 1) useStore.init
     = mkControls false false true false false false
  /\ onMove (mkJoystick 225 1) useStore.init
     = mkControls false false true false false false
  /\ onMove (mkJoystick 315 1) useStore.init
     = mkControls false false false true false false.
Proof. repeat split. Qed.

(** ** World generation *)

Lemma In_zrange (n : nat) : forall (lo k : Z),
  In k (zrange lo n) <-> lo <= k < lo + Z.of_nat n.
Proof.
  induction n as [| n IH]; intros lo k.
  - simpl. lia.
  - cbn [zrange In]. rewrite IH. lia.
Qed.

(** A counting loop visits the integers of its range in order. *)
Lemma for_loop_zrange (body : Z -> list Block -> list Block) (n : nat) :
  forall (i : Z) (world : list Block),
    for_loop n i (i + Z.of_nat n) body world
    = fold_left (fun w k => body k w) (zrange i n) world.
Proof.
  induction n as [| n IH]; intros i world; [reflexivity |].
  cbn [for_loop zrange fold_left].
  assert (Hlt : (i <? i + Z.of_nat (S n)) = true) by (apply Z.ltb_lt; lia).
  rewrite Hlt.
  replace (i + Z.of_nat (S n)) with (i + 1 + Z.of_nat n) by lia.
  apply IH.
Qed.

Lemma for_range_zrange (lo hi : Z) (body : Z -> list Block -> list Block)
    (world : list Block) :
  lo <= hi ->
  for_range lo hi body world
  = fold_left (fun w k => body k w) (zrange lo (Z.to_nat (hi - lo))) world.
Proof.
  intros Hle. unfold for_range.
  replace hi with (lo + Z.of_nat (Z.to_nat (hi - lo))) at 2 by lia.
  apply for_loop_zrange.
Qed.

(** A loop whose body only pushes appends what its iterations push. *)
Lemma fold_left_pushes (body : Z -> list Block -> list Block)
    (pushed : Z -> list Block) :
  (forall k w, body k w = w ++ pushed k) ->
  forall (l : list Z) (world : list Block),
    fold_left (fun w k => body k w) l world = world ++ flat_map pushed l.
Proof.
  intros Hbody l. induction l as [| k l IH]; intros world; simpl.
  - symmetry. apply app_nil_r.
  - rewrite IH, Hbody, <- app_assoc. reflexivity.
Qed.

(** The generated array is the terrain followed by the tree. *)
Lemma generate_terrain_tree : generate = terrain ++ tree.
Proof.
  unfold generate.
  change (- WORLD_SIZE / 2) with (-16). change (WORLD_SIZE / 2) with 16.
  rewrite for_range_zrange by lia.
  change (Z.to_nat (16 - -16)) with 32%nat.
  rewrite (fold_left_pushes _
             (fun px => flat_map
                          (fun pz => map (fun py => terrain_block px py pz)
                                       [0; 1; 2])
                          (zrange (-16) 32))).
  - unfold push, tree. rewrite <- !app_assoc. reflexivity.
  - intros px w. rewrite for_range_zrange by lia.
    change (Z.to_nat (16 - -16)) with 32%nat.
    apply fold_left_pushes.
    intros pz w'. unfold push. rewrite <- !app_assoc. reflexivity.
Qed.

Lemma In_terrain (b : Block) :
  In b terrain <->
  exists px py pz,
    -16 <= px < 16 /\ -16 <= pz < 16 /\ 0 <= py <= 2
    /\ b = terrain_block px py pz.
Proof.
  unfold terrain. rewrite in_flat_map. split.
  - intros (px & Hpx & Hb). apply in_flat_map in Hb.
    destruct Hb as (pz & Hpz & Hb). apply in_map_iff in Hb.
    destruct Hb as (py & Hb & Hpy).
    apply In_zrange in Hpx. apply In_zrange in Hpz.
    exists px, py, pz. repeat split; try lia; [| | congruence];
      simpl in Hpy; lia.
  - intros (px & py & pz & Hpx & Hpz & Hpy & ->).
    exists px. split; [apply In_zrange; lia |].
    apply in_flat_map. exists pz. split; [apply In_zrange; lia |].
    apply in_map_iff. exists py. split; [reflexivity |].
    simpl. lia.
Qed.

(** C4.  World generation is a constant of the program: it takes no input
    and draws no random number.  The array it builds is the terrain in
    generation order followed by the seven blocks of the tree; its blocks
    are exactly STONE at y = 0, DIRT at y = 1 and GRASS at y = 2 for every
    integer x, z in [[-N/2, N/2)] with N = 32, and the tree; their number
    is 3·N² + 7 = 3079. *)
Theorem generate_deterministic_complete :
  generate = terrain ++ tree
  /\ List.length generate = 3079%nat
  /\ Z.of_nat (List.length generate) = 3 * WORLD_SIZE * WORLD_SIZE + 7
  /\ (forall b : Block,
        In b generate <->
        (exists px py pz,
            - WORLD_SIZE / 2 <= px < WORLD_SIZE / 2
            /\ - WORLD_SIZE / 2 <= pz < WORLD_SIZE / 2
            /\ 0 <= py <= 2
            /\ b = mkBlock (id_derived_from (px, py, pz)) (px, py, pz)
                     (if py =? 0 then STONE
                      else if py =? 1 then DIRT else GRASS))
        \/ In b tree).
Proof.
  assert (Hlen : List.length generate = 3079%nat) by (vm_compute; reflexivity).
  repeat apply conj.
  - exact generate_terrain_tree.
  - exact Hlen.
  - rewrite Hlen. reflexivity.
  - intros b. rewrite generate_terrain_tree, in_app_iff, In_terrain.
    change (- WORLD_SIZE / 2) with (-16). change (WORLD_SIZE / 2) with 16.
    reflexivity.
Qed.

(** The tree, as the source spells it. *)
Lemma generate_tree :
  skipn 3072 generate
  = [ mkBlock "0-3-0" (0, 3, 0) WOOD; mkBlock "0-4-0" (0, 4, 0) WOOD;
      mkBlock "0-5-0" (0, 5, 0) LEAVES; mkBlock "1-4-0" (1, 4, 0) LEAVES;
      mkBlock "-1-4-0" (-1, 4, 0) LEAVES; mkBlock "0-4-1" (0, 4, 1) LEAVES;
      mkBlock "0-4--1" (0, 4, -1) LEAVES ].
Proof. vm_compute. reflexivity. Qed.

(** The first column of the terrain. *)
Lemma generate_first_blocks :
  firstn 3 generate
  = [ mkBlock "-16-0--16" (-16, 0, -16) STONE;
      mkBlock "-16-1--16" (-16, 1, -16) DIRT;
      mkBlock "-16-2--16" (-16, 2, -16) GRASS ].
Proof. vm_compute. reflexivity. Qed.

(** ** Uniqueness of the generated ids *)

Lemma distinct_NoDup (l : list string) : distinct l = true -> NoDup l.
Proof.
  induction l as [| s l IH]; intros H; [constructor |].
  simpl in H. apply andb_true_iff in H. destruct H as [Hs Hl].
  constructor; [| apply IH; exact Hl].
  intros Hin. apply negb_true_iff in Hs.
  assert (Hex : existsb (String.eqb s) l = true).
  { apply existsb_exists. exists s. split; [exact Hin | apply String.eqb_refl]. }
  congruence.
Qed.

Lemma generate_ids_distinct : distinct (map id generate) = true.
Proof. vm_compute. reflexivity. Qed.

(** C5.  The ids of the generated world are pairwise different: the list
    of the ids, negative coordinates included, has no repetition. *)
Theorem generate_ids_unique : NoDup (map id generate).
Proof.
  apply distinct_NoDup. exact generate_ids_distinct.
Qed.

(** In terms of two blocks at two indices of the array. *)
Lemma generate_ids_differ (i j : nat) (b1 b2 : Block) :
  nth_error generate i = Some b1 -> nth_error generate j = Some b2 ->
  i <> j -> id b1 <> id b2.
Proof.
  intros H1 H2 Hij E. apply Hij.
  assert (Hi : nth_error (map id generate) i = Some (id b1))
    by (rewrite nth_error_map, H1; reflexivity).
  assert (Hj : nth_error (map id generate) j = Some (id b2))
    by (rewrite nth_error_map, H2; reflexivity).
  rewrite <- E in Hj.
  apply (proj1 (NoDup_nth_error (map id generate))
           (distinct_NoDup _ generate_ids_distinct) i j).
  - apply nth_error_Some. rewrite Hi. discriminate.
  - rewrite Hi, Hj. reflexivity.
Qed.

(** The ids the source writes with a literal layer, ["x-0-z"], are the ids
    derived from the positions. *)
Lemma literal_layer_id (px pz : Z) :
  (show px ++ "-0-" ++ show pz)%string = id_derived_from (px, 0, pz)
  /\ (show px ++ "-1-" ++ show pz)%string = id_derived_from (px, 1, pz)
  /\ (show px ++ "-2-" ++ show pz)%string = id_derived_from (px, 2, pz).
Proof. repeat split. Qed.

(** Every generated block carries the id derived from its position. *)
Lemma generate_ids_derived (b : Block) :
  In b generate -> id b = id_derived_from (pos b).
Proof.
  rewrite generate_terrain_tree, in_app_iff, In_terrain.
  intros [(px & py & pz & _ & _ & _ & ->) | Hb]; [reflexivity |].
  unfold tree in Hb. simpl in Hb.
  repeat (destruct Hb as [<- | Hb]; [reflexivity |]). contradiction.
Qed.

(** The id collision in the generated world: placing a block where the grass block
    (0, 2, 0) stands and removing it takes the grass block away too. *)
Lemma add_remove_in_generated_world :
  In "0-2-0"%string (map id generate)
  /\ List.length (handleRemoveBlock "0-2-0" (handleAddBlock (0, 2, 0) generate))
     = 3078%nat.
Proof.
  split.
  - apply in_map_iff. exists (mkBlock "0-2-0" (0, 2, 0) GRASS).
    split; [reflexivity |].
    rewrite generate_terrain_tree. apply in_or_app. left.
    apply In_terrain. exists 0, 2, 0. repeat split; lia.
  - vm_compute. reflexivity.
Qed.

(** ** The player controller *)

(** A number equal to zero is not NaN. *)
Lemma eqb_zero_not_nan (a : float) :
  (a =? 0)%float = true -> PrimFloat.is_nan a = false.
Proof.
  unfold PrimFloat.is_nan. rewrite !FloatAxioms.eqb_spec.
  change (Prim2SF 0) with (S754_zero false).
  destruct (Prim2SF a) as [sa | sa | | sa ma ea]; simpl; intros H;
    try reflexivity; try discriminate H;
    destruct sa; discriminate H.
Qed.

Lemma is_zero_no_nan (v : THREE.Vector3) :
  THREE.is_zero v = true -> THREE.has_nan v = false.
Proof.
  unfold THREE.is_zero, THREE.has_nan. intros H.
  apply andb_true_iff in H. destruct H as [H Hz].
  apply andb_true_iff in H. destruct H as [Hx Hy].
  rewrite (eqb_zero_not_nan _ Hx), (eqb_zero_not_nan _ Hy),
    (eqb_zero_not_nan _ Hz).
  reflexivity.
Qed.

Section PlayerProperties.

Variable applyEuler : THREE.Euler -> THREE.Vector3 -> THREE.Vector3.
Variable castRay : PhysicsWorld -> THREE.Vector3 -> option float.

(** A frame on an attached body writes the intent velocity, horizontal
    components from the direction and the vertical one kept, and then
    throws at the call of [parent()]: the ray is not cast and the jump
    branch is not reached. *)
Lemma useFrame_attached (rotation : THREE.Euler) (c : ControlsState)
    (body : RigidBody) :
  useFrame applyEuler castRay rotation c (Some body)
  = Threw (Some (setLinvel (intent_velocity applyEuler rotation c body) body)).
Proof. reflexivity. Qed.

Lemma useFrame_detached (rotation : THREE.Euler) (c : ControlsState) :
  useFrame applyEuler castRay rotation c None = Returned None.
Proof. reflexivity. Qed.

(** The vector that is normalized: the front vector minus the side
    vector. *)
Lemma combined_axes (c : ControlsState) :
  THREE.subVectors (frontVector c) (sideVector c)
  = THREE.mkVector3 (0 - Intent.side_axis c) 0 (Intent.front_axis c).
Proof.
  destruct c as [fw bw l r j f]. unfold frontVector, sideVector. simpl.
  destruct fw, bw; reflexivity.
Qed.

(** The normalized and scaled vector, in closed form: speed 5 along one
    axis, 5/sqrt 2 on each axis of a diagonal, 0 on an axis whose keys are
    both up or both down. *)
Lemma local_direction_closed_form (c : ControlsState) :
  local_direction c
  = THREE.mkVector3
      (Intent.component (right c) (left c) (xorb (forward c) (backward c)))
      0
      (Intent.component (backward c) (forward c) (xorb (left c) (right c))).
Proof.
  destruct c as [fw bw l r j f]. destruct fw, bw, l, r; reflexivity.
Qed.

(** The program's normalisation and scaling against the specification's,
    on the vectors the keys can give. *)
Lemma local_direction_amended (c : ControlsState) :
  local_direction c
  = Intent.scaled 5
      (Intent.normalized
         (Intent.difference (Intent.on_forward_axis (Intent.front_axis c))
            (Intent.on_right_axis (Intent.side_axis c)))).
Proof.
  destruct c as [fw bw l r j f]. destruct fw, bw, l, r; reflexivity.
Qed.

(** C3, amended.  For every control state and camera rotation the
    direction the frame computes is: the front axis value
    [(backward?1:0) - (forward?1:0)] placed on the camera's forward axis
    (its z axis) minus the side axis value [(left?1:0) - (right?1:0)]
    placed on the camera-right axis (its x axis), then normalized (every
    component divided by the norm, zero staying zero), then scaled by 5,
    then rotated by the camera's rotation. *)
Theorem direction_is_amended_intent :
  forall (rotation : THREE.Euler) (c : ControlsState),
    direction applyEuler rotation c
    = Intent.intent_amended applyEuler rotation c.
Proof.
  intros rotation c. unfold direction, Intent.intent_amended.
  rewrite local_direction_amended. reflexivity.
Qed.

(** C7.  With the four directional flags false, normalisation meets the
    zero vector, divides by 1 and returns the zero vector: the scaled
    vector is zero, and after a rotation, which sends the zero vector to
    a zero vector, the intent vector is zero and has no NaN component. *)
Theorem zero_input_zero_intent :
  forall (rotation : THREE.Euler) (c : ControlsState),
    forward c = false -> backward c = false ->
    left c = false -> right c = false ->
    THREE.is_zero (applyEuler rotation THREE.zero) = true ->
    THREE.subVectors (frontVector c) (sideVector c) = THREE.zero
    /\ THREE.normalize THREE.zero = THREE.zero
    /\ local_direction c = THREE.zero
    /\ THREE.is_zero (direction applyEuler rotation c) = true
    /\ THREE.has_nan (direction applyEuler rotation c) = false.
Proof.
  intros rotation c Hf Hb Hl Hr Hrot.
  assert (Hsub : THREE.subVectors (frontVector c) (sideVector c) = THREE.zero).
  { unfold frontVector, sideVector. rewrite Hf, Hb, Hl, Hr. reflexivity. }
  assert (Hnorm : THREE.normalize THREE.zero = THREE.zero) by reflexivity.
  assert (Hlocal : local_direction c = THREE.zero).
  { unfold local_direction. rewrite Hsub, Hnorm. reflexivity. }
  assert (Hdir : THREE.is_zero (direction applyEuler rotation c) = true).
  { unfold direction. rewrite Hlocal. exact Hrot. }
  repeat split; try assumption.
  apply is_zero_no_nan. exact Hdir.
Qed.

End PlayerProperties.

(** The intent vectors in the camera's frame, by pressed keys. *)
Lemma local_direction_forward :
  local_direction (mkControls true false false false false false)
  = THREE.mkVector3 0 0 (-5).
Proof. reflexivity. Qed.

Lemma local_direction_backward :
  local_direction (mkControls false true false false false false)
  = THREE.mkVector3 0 0 5.
Proof. reflexivity. Qed.

Lemma local_direction_left :
  local_direction (mkControls false false true false false false)
  = THREE.mkVector3 (-5) 0 0.
Proof. reflexivity. Qed.

Lemma local_direction_right :
  local_direction (mkControls false false false true false false)
  = THREE.mkVector3 5 0 0.
Proof. reflexivity. Qed.

(** A diagonal has the same speed: both components are 5/sqrt 2, as
    binary64 arithmetic rounds it. *)
Lemma local_direction_forward_left :
  local_direction (mkControls true false true false false false)
  = THREE.mkVector3 (-3.5355339059327373) 0 (-3.5355339059327373).
Proof. reflexivity. Qed.

(** Opposite keys cancel. *)
Lemma local_direction_opposite_keys (j f : bool) :
  local_direction (mkControls true true true true j f) = THREE.zero.
Proof. reflexivity. Qed.

(** Jump and fire play no part in the direction. *)
Lemma local_direction_ignores_jump_fire (fw bw l r j f j' f' : bool) :
  local_direction (mkControls fw bw l r j f)
  = local_direction (mkControls fw bw l r j' f').
Proof. reflexivity. Qed.

(** Without the guard the zero vector would be divided by its length:
    every component would be NaN. *)
Lemma normalize_unguarded_zero_is_nan :
  THREE.normalize_unguarded THREE.zero
  = THREE.mkVector3 PrimFloat.nan PrimFloat.nan PrimFloat.nan
  /\ THREE.has_nan
       (THREE.multiplyScalar (THREE.normalize_unguarded THREE.zero)
          PLAYER_SPEED) = true.
Proof. split; reflexivity. Qed.

(** With no key pressed and the camera turned a quarter about the vertical
    axis, the intent vector is zero. *)
Lemma zero_input_zero_intent_witness :
  let quarter_turn :=
    fun (_ : THREE.Euler) (v : THREE.Vector3) =>
      THREE.mkVector3 (THREE.z v) (THREE.y v) (- THREE.x v)%float in
  let c := mkControls false false false false true true in
  let rotation := THREE.mkEuler 0 1.5707963267948966 0 in
  THREE.subVectors (frontVector c) (sideVector c) = THREE.zero
  /\ THREE.normalize THREE.zero = THREE.zero
  /\ local_direction c = THREE.zero
  /\ THREE.is_zero (direction quarter_turn rotation c) = true
  /\ THREE.has_nan (direction quarter_turn rotation c) = false.
Proof.
  intros quarter_turn c rotation.
  exact (zero_input_zero_intent quarter_turn rotation c
           eq_refl eq_refl eq_refl eq_refl eq_refl).
Defined.

(** C3, as stated, fails when the keys give a side value: with the axis
    vectors combined by their sum, the left key alone would give the intent
    vector (5, 0, 0), towards the camera's right; the frame computes
    (-5, 0, 0).  The camera is not rotated here. *)
Lemma intent_sum_counterexample :
  let unrotated := fun (_ : THREE.Euler) (v : THREE.Vector3) => v in
  let c := mkControls false false true false false false in
  Intent.intent unrotated (THREE.mkEuler 0 0 0) c = THREE.mkVector3 5 0 0
  /\ direction unrotated (THREE.mkEuler 0 0 0) c = THREE.mkVector3 (-5) 0 0
  /\ direction unrotated (THREE.mkEuler 0 0 0) c
     <> Intent.intent unrotated (THREE.mkEuler 0 0 0) c.
Proof.
  intros unrotated c. repeat apply conj; try reflexivity.
  intros E.
  apply (f_equal (fun v => (THREE.x v <? 0)%float)) in E.
  vm_compute in E. discriminate E.
Qed.

(** Where no side key acts, sum and difference agree: the statement with
    the sum holds for the states with [left = right]. *)
Lemma intent_sum_without_side
    (applyEuler : THREE.Euler -> THREE.Vector3 -> THREE.Vector3)
    (rotation : THREE.Euler) (c : ControlsState) :
  left c = right c ->
  direction applyEuler rotation c = Intent.intent applyEuler rotation c.
Proof.
  intros Hside. unfold direction, Intent.intent. f_equal.
  destruct c as [fw bw l r j f]. simpl in Hside. subst r.
  destruct fw, bw, l; reflexivity.
Qed.

(** C1.  The frame at the failing input: the player stands on the ground
    (a downward ray would hit after 1 unit), the camera is not rotated,
    and forward and jump are held.  The frame writes the intent velocity
    (0, 0, -5) and then throws at [parent()]: the ray is not cast, the
    jump branch is not reached, and the vertical velocity is 0, not the
    jump speed 6. *)
Theorem useFrame_throws_before_jump :
  let unrotated := fun (_ : THREE.Euler) (v : THREE.Vector3) => v in
  let ground_below :=
    fun (_ : PhysicsWorld) (_ : THREE.Vector3) => Some 1%float in
  let c := mkControls true false false false true false in
  let body := mkBody (THREE.mkVector3 0 0 0) (THREE.mkVector3 0 3.5 0) in
  useFrame unrotated ground_below (THREE.mkEuler 0 0 0) c (Some body)
  = Threw (Some (mkBody (THREE.mkVector3 0 0 (-5)) (THREE.mkVector3 0 3.5 0)))
  /\ option_map (fun b => THREE.y (linvel b))
       (body_after
          (useFrame unrotated ground_below (THREE.mkEuler 0 0 0) c (Some body)))
     = Some 0%float
  /\ (0 =? JUMP_FORCE)%float = false.
Proof. repeat split. Qed.

(** The jump flag has no effect on a frame. *)
Lemma useFrame_ignores_jump
    (applyEuler : THREE.Euler -> THREE.Vector3 -> THREE.Vector3)
    (castRay : PhysicsWorld -> THREE.Vector3 -> option float)
    (rotation : THREE.Euler) (fw bw l r j j' f : bool)
    (bodyRef : option RigidBody) :
  useFrame applyEuler castRay rotation (mkControls fw bw l r j f) bodyRef
  = useFrame applyEuler castRay rotation (mkControls fw bw l r j' f) bodyRef.
Proof. destruct bodyRef; reflexivity. Qed.

(** * Further properties of the code *)

(** ** The control store: how updates compose *)

Lemma assign_assign (old : bool) (first second : option bool) :
  assign (assign old first) second
  = assign old (match second with Some v => Some v | None => first end).
Proof. destruct second; reflexivity. Qed.

(** X1.  Two updates in a row are one update: the second wins on the flags
    both mention, and every other flag comes from the first or stays. *)
Theorem set_set_override :
  forall (first second : PartialControls) (s : ControlsState),
    useStore.set second (useStore.set first s)
    = useStore.set (override first second) s.
Proof.
  intros first second s. unfold useStore.set, override. simpl.
  rewrite !assign_assign. reflexivity.
Qed.

Lemma set_idempotent (p : PartialControls) (s : ControlsState) :
  useStore.set p (useStore.set p s) = useStore.set p s.
Proof.
  unfold useStore.set. simpl.
  destruct (p_forward p), (p_backward p), (p_left p), (p_right p),
    (p_jump p), (p_fire p); reflexivity.
Qed.

(** X2.  Updates that mention different flags can be applied in either
    order. *)
Theorem set_commutes_on_disjoint_flags :
  forall (p q : PartialControls) (s : ControlsState),
    (forall k : Flag, mentioned k p = None \/ mentioned k q = None) ->
    useStore.set p (useStore.set q s) = useStore.set q (useStore.set p s).
Proof.
  intros p q s H.
  pose proof (H Forward) as Hf. pose proof (H Backward) as Hb.
  pose proof (H Left) as Hl. pose proof (H Right) as Hr.
  pose proof (H Jump) as Hj. pose proof (H Fire) as Hfi.
  unfold useStore.set. simpl in *.
  destruct Hf as [-> | ->], Hb as [-> | ->], Hl as [-> | ->],
    Hr as [-> | ->], Hj as [-> | ->], Hfi as [-> | ->]; simpl;
    f_equal;
    repeat match goal with
           | |- context [assign _ ?o] => is_var o; destruct o
           | |- context [assign _ (?f ?r)] => destruct (f r)
           end; reflexivity.
Qed.

(** A key press and a mouse click, in either order. *)
Lemma set_commutes_on_disjoint_flags_witness :
  useStore.set (mkPartial (Some true) None None None None None)
    (useStore.set (mkPartial None None None None None (Some true))
       useStore.init)
  = useStore.set (mkPartial None None None None None (Some true))
      (useStore.set (mkPartial (Some true) None None None None None)
         useStore.init).
Proof.
  apply set_commutes_on_disjoint_flags.
  intros k. destruct k; simpl; auto.
Defined.

(** On the same flag the order matters: the later update wins. *)
Lemma set_same_flag_order :
  useStore.set (mkPartial (Some true) None None None None None)
    (useStore.set (mkPartial (Some false) None None None None None)
       useStore.init)
  <> useStore.set (mkPartial (Some false) None None None None None)
       (useStore.set (mkPartial (Some true) None None None None None)
          useStore.init).
Proof. discriminate. Qed.

(** ** The keyboard *)

Lemma handleKeyDown_flag (code : string) (c : ControlsState) (k : Flag) :
  flag k (handleKeyDown code c)
  = match bound_code k with
    | Some b => if String.eqb code b then true else flag k c
    | None => flag k c
    end.
Proof.
  unfold handleKeyDown. destruct k; cbn [bound_code];
    destruct (String.eqb code "KeyW"), (String.eqb code "KeyS"),
      (String.eqb code "KeyA"), (String.eqb code "KeyD"),
      (String.eqb code "Space"); reflexivity.
Qed.

Lemma handleKeyUp_flag (code : string) (c : ControlsState) (k : Flag) :
  flag k (handleKeyUp code c)
  = match bound_code k with
    | Some b => if String.eqb code b then false else flag k c
    | None => flag k c
    end.
Proof.
  unfold handleKeyUp. destruct k; cbn [bound_code];
    destruct (String.eqb code "KeyW"), (String.eqb code "KeyS"),
      (String.eqb code "KeyA"), (String.eqb code "KeyD"),
      (String.eqb code "Space"); reflexivity.
Qed.

(** Two control states with the same six flags are equal. *)
Lemma controls_ext (c d : ControlsState) :
  (forall k : Flag, flag k c = flag k d) -> c = d.
Proof.
  intros H. destruct c, d.
  pose proof (H Forward). pose proof (H Backward). pose proof (H Left).
  pose proof (H Right). pose proof (H Jump). pose proof (H Fire).
  simpl in *. congruence.
Qed.

(** X3.  A key code other than KeyW, KeyS, KeyA, KeyD and Space is ignored
    by both keyboard handlers. *)
Theorem unbound_key_ignored :
  forall (code : string) (c : ControlsState),
    code <> "KeyW"%string -> code <> "KeyS"%string ->
    code <> "KeyA"%string -> code <> "KeyD"%string ->
    code <> "Space"%string ->
    handleKeyDown code c = c /\ handleKeyUp code c = c.
Proof.
  intros code c HW HS HA HD HSp.
  apply String.eqb_neq in HW, HS, HA, HD, HSp.
  unfold handleKeyDown, handleKeyUp.
  rewrite HW, HS, HA, HD, HSp. split; reflexivity.
Qed.

Lemma unbound_key_ignored_witness :
  handleKeyDown "KeyQ" (mkControls true false false true false true)
  = mkControls true false false true false true
  /\ handleKeyUp "KeyQ" (mkControls true false false true false true)
     = mkControls true false false true false true.
Proof.
  apply unbound_key_ignored; discriminate.
Defined.

(** X4.  Releasing a key undoes pressing it, whatever the flag was before
    (so a key release also clears a direction the joystick had set), and a
    repeated key-down event changes nothing more. *)
Theorem key_up_absorbs_key_down :
  forall (code : string) (c : ControlsState),
    handleKeyUp code (handleKeyDown code c) = handleKeyUp code c
    /\ handleKeyDown code (handleKeyDown code c) = handleKeyDown code c
    /\ handleKeyDown code (handleKeyUp code c) = handleKeyDown code c.
Proof.
  intros code c. repeat apply conj; apply controls_ext; intros k;
    repeat (rewrite handleKeyUp_flag || rewrite handleKeyDown_flag);
    destruct (bound_code k) as [b |]; try reflexivity;
    destruct (String.eqb code b); reflexivity.
Qed.

(** X5.  A keyboard event changes no flag but the one its key is bound
    to; in particular it never touches [fire]. *)
Theorem key_changes_only_its_flag :
  forall (code : string) (c : ControlsState) (k : Flag),
    bound_code k <> Some code ->
    flag k (handleKeyDown code c) = flag k c
    /\ flag k (handleKeyUp code c) = flag k c.
Proof.
  intros code c k Hk. rewrite handleKeyDown_flag, handleKeyUp_flag.
  destruct (bound_code k) as [b |]; [| split; reflexivity].
  destruct (String.eqb_spec code b) as [-> | _]; [| split; reflexivity].
  contradiction Hk. reflexivity.
Qed.

Lemma key_changes_only_its_flag_witness :
  flag Fire (handleKeyDown "Space" (mkControls false false false false false true))
  = true
  /\ flag Fire (handleKeyUp "Space" (mkControls false false false false false true))
     = true.
Proof.
  apply (key_changes_only_its_flag "Space"
           (mkControls false false false false false true) Fire).
  discriminate.
Defined.

(** ** The order of binary64 numbers *)

Lemma SFcompare_key (u v : spec_float) :
  match SFcompare u v, order_key u, order_key v with
  | Some Lt, Some ku, Some kv => key_lt ku kv
  | Some Eq, Some ku, Some kv => ku = kv
  | Some Gt, Some ku, Some kv => key_lt kv ku
  | None, None, _ => True
  | None, _, None => True
  | _, _, _ => False
  end.
Proof.
  destruct u as [su | su | | su mu eu], v as [sv | sv | | sv mv ev];
    try destruct su; try destruct sv; simpl; try lia; try reflexivity; auto.
  - destruct (Z.compare_spec eu ev) as [E | E | E].
    + subst. change (Pos.compare_cont Eq mu mv) with (Pos.compare mu mv).
      destruct (Pos.compare_spec mu mv) as [E | E | E]; simpl; try lia.
      subst. reflexivity.
    + simpl. lia.
    + simpl. lia.
  - destruct (Z.compare_spec eu ev) as [E | E | E].
    + subst. change (Pos.compare_cont Eq mu mv) with (Pos.compare mu mv).
      destruct (Pos.compare_spec mu mv) as [E | E | E]; simpl; try lia.
      subst. reflexivity.
    + simpl. lia.
    + simpl. lia.
Qed.

Lemma ltb_float_lt (a b : float) : (a <? b)%float = true <-> float_lt a b.
Proof.
  rewrite FloatAxioms.ltb_spec. unfold SFltb, float_lt.
  pose proof (SFcompare_key (Prim2SF a) (Prim2SF b)) as H.
  destruct (SFcompare (Prim2SF a) (Prim2SF b)) as [[ | | ] |],
    (order_key (Prim2SF a)) as [[[a1 a2] a3] |],
    (order_key (Prim2SF b)) as [[[b1 b2] b3] |];
    simpl in *; try contradiction; split; try discriminate; try tauto;
    try (injection H as -> -> ->); lia.
Qed.

Lemma leb_float_le (a b : float) : (a <=? b)%float = true <-> float_le a b.
Proof.
  rewrite FloatAxioms.leb_spec. unfold SFleb, float_le.
  pose proof (SFcompare_key (Prim2SF a) (Prim2SF b)) as H.
  destruct (SFcompare (Prim2SF a) (Prim2SF b)) as [[ | | ] |],
    (order_key (Prim2SF a)) as [[[a1 a2] a3] |],
    (order_key (Prim2SF b)) as [[[b1 b2] b3] |];
    simpl in *; try contradiction; split; try discriminate; try tauto;
    try (injection H as -> -> ->); lia.
Qed.

Ltac float_order :=
  rewrite ?ltb_float_lt, ?leb_float_le; unfold float_lt, float_le;
  repeat match goal with
         | |- context [order_key (Prim2SF ?a)] =>
             destruct (order_key (Prim2SF a)) as [[[? ?] ?] |]
         end;
  cbn [key_lt key_le]; try tauto; try lia.

Lemma ltb_trans (a b c : float) :
  (a <? b)%float = true -> (b <? c)%float = true -> (a <? c)%float = true.
Proof. float_order. Qed.

Lemma leb_ltb_trans (a b c : float) :
  (a <=? b)%float = true -> (b <? c)%float = true -> (a <? c)%float = true.
Proof. float_order. Qed.

Lemma ltb_leb_trans (a b c : float) :
  (a <? b)%float = true -> (b <=? c)%float = true -> (a <? c)%float = true.
Proof. float_order. Qed.

Lemma leb_trans (a b c : float) :
  (a <=? b)%float = true -> (b <=? c)%float = true -> (a <=? c)%float = true.
Proof. float_order. Qed.

Lemma not_nan_key (a : float) :
  PrimFloat.is_nan a = false -> order_key (Prim2SF a) <> None.
Proof.
  unfold PrimFloat.is_nan. rewrite FloatAxioms.eqb_spec.
  destruct (Prim2SF a) as [s | s | | s m e]; try destruct s; simpl;
    intros H; discriminate.
Qed.

(** Two numbers that are not NaN are comparable. *)
Lemma not_leb_ltb (a b : float) :
  PrimFloat.is_nan a = false -> PrimFloat.is_nan b = false ->
  (a <=? b)%float = false -> (b <? a)%float = true.
Proof.
  intros Ha Hb. apply not_nan_key in Ha, Hb.
  rewrite <- not_true_iff_false. revert Ha Hb. float_order; congruence.
Qed.

Lemma not_ltb_leb (a b : float) :
  PrimFloat.is_nan a = false -> PrimFloat.is_nan b = false ->
  (a <? b)%float = false -> (b <=? a)%float = true.
Proof.
  intros Ha Hb. apply not_nan_key in Ha, Hb.
  rewrite <- not_true_iff_false. revert Ha Hb. float_order; congruence.
Qed.

(** ** The joystick: one direction at a time *)

Ltac split_bools :=
  repeat match goal with
         | H : _ && _ = true |- _ => apply andb_true_iff in H; destruct H
         | H : _ || _ = true |- _ => apply orb_true_iff in H; destruct H
         end.

(** Two bounds on the same number that contradict the order of the
    thresholds. *)
Ltac order_clash :=
  match goal with
  | H1 : (?lo <? ?a)%float = true, H2 : (?a <? ?hi)%float = true |- _ =>
      let C := fresh in
      pose proof (ltb_trans _ _ _ H1 H2) as C; vm_compute in C; discriminate C
  | H1 : (?lo <=? ?a)%float = true, H2 : (?a <? ?hi)%float = true |- _ =>
      let C := fresh in
      pose proof (leb_ltb_trans _ _ _ H1 H2) as C; vm_compute in C;
      discriminate C
  | H1 : (?lo <? ?a)%float = true, H2 : (?a <=? ?hi)%float = true |- _ =>
      let C := fresh in
      pose proof (ltb_leb_trans _ _ _ H1 H2) as C; vm_compute in C;
      discriminate C
  | H1 : (?lo <=? ?a)%float = true, H2 : (?a <=? ?hi)%float = true |- _ =>
      let C := fresh in
      pose proof (leb_trans _ _ _ H1 H2) as C; vm_compute in C; discriminate C
  end.

Ltac exclusive := apply not_true_iff_false; intros ?; split_bools; order_clash.

Lemma sectors_exclusive (a : float) :
  let fw := (45 <? a)%float && (a <? 135)%float in
  let bw := (225 <? a)%float && (a <? 315)%float in
  let lf := (135 <=? a)%float && (a <=? 225)%float in
  let rt := (a <=? 45)%float || (315 <=? a)%float in
  (Nat.b2n fw + Nat.b2n bw + Nat.b2n lf + Nat.b2n rt <= 1)%nat.
Proof.
  intros fw bw lf rt.
  assert (Hfb : fw && bw = false) by (subst fw bw; exclusive).
  assert (Hfl : fw && lf = false) by (subst fw lf; exclusive).
  assert (Hfr : fw && rt = false) by (subst fw rt; exclusive).
  assert (Hbl : bw && lf = false) by (subst bw lf; exclusive).
  assert (Hbr : bw && rt = false) by (subst bw rt; exclusive).
  assert (Hlr : lf && rt = false) by (subst lf rt; exclusive).
  destruct fw, bw, lf, rt; simpl in *; try discriminate; lia.
Qed.

Lemma sectors_cover (a : float) :
  PrimFloat.is_nan a = false ->
  let fw := (45 <? a)%float && (a <? 135)%float in
  let bw := (225 <? a)%float && (a <? 315)%float in
  let lf := (135 <=? a)%float && (a <=? 225)%float in
  let rt := (a <=? 45)%float || (315 <=? a)%float in
  fw || bw || lf || rt = true.
Proof.
  intros Ha fw bw lf rt. subst fw bw lf rt.
  destruct (a <=? 45)%float eqn:H45; [rewrite !orb_true_r; reflexivity |].
  apply (not_leb_ltb a 45 Ha eq_refl) in H45. rewrite H45.
  destruct (a <? 135)%float eqn:H135; [reflexivity |].
  apply (not_ltb_leb a 135 Ha eq_refl) in H135. rewrite H135.
  destruct (a <=? 225)%float eqn:H225; [rewrite !orb_true_r; reflexivity |].
  apply (not_leb_ltb a 225 Ha eq_refl) in H225. rewrite H225.
  destruct (a <? 315)%float eqn:H315; [reflexivity |].
  apply (not_ltb_leb a 315 Ha eq_refl) in H315. rewrite H315.
  rewrite !orb_true_r. reflexivity.
Qed.

(** X6.  A joystick move with force above 0.2 never sets two directions:
    for every angle, NaN and angles outside the circle included, at most
    one of the four flags is set, and exactly one when the angle is a
    number. *)
Theorem onMove_one_direction :
  forall (data : JoystickData) (c : ControlsState),
    (0.2 <? force data)%float = true ->
    (directions_set (onMove data c) <= 1)%nat
    /\ (PrimFloat.is_nan (angle_degree data) = false ->
        directions_set (onMove data c) = 1%nat).
Proof.
  intros data c Hforce. rewrite (onMove_strong data c Hforce).
  unfold directions_set. cbn [forward backward left right].
  pose proof (sectors_exclusive (angle_degree data)) as Hex.
  split; [exact Hex |].
  intros Hnan. pose proof (sectors_cover _ Hnan) as Hcov.
  cbv zeta in Hex, Hcov.
  destruct ((45 <? angle_degree data)%float && (angle_degree data <? 135)%float),
    ((225 <? angle_degree data)%float && (angle_degree data <? 315)%float),
    ((135 <=? angle_degree data)%float && (angle_degree data <=? 225)%float),
    ((angle_degree data <=? 45)%float || (315 <=? angle_degree data)%float);
    simpl in *; try discriminate; lia.
Qed.

(** The stick pushed to 200 degrees while W and D are held: afterwards
    [left] alone is set. *)
Lemma onMove_one_direction_witness :
  (directions_set
     (onMove (mkJoystick 200 0.7) (mkControls true false false true false false))
   <= 1)%nat
  /\ directions_set
       (onMove (mkJoystick 200 0.7)
          (mkControls true false false true false false)) = 1%nat.
Proof.
  destruct (onMove_one_direction (mkJoystick 200 0.7)
              (mkControls true false false true false false) eq_refl)
    as [Hmost Hone].
  split; [exact Hmost | exact (Hone eq_refl)].
Defined.

(** X7.  The joystick moves the player along one axis of the camera frame
    at speed 5, never along a diagonal: after a move with force above 0.2
    the intent vector before rotation is one of five vectors. *)
Theorem onMove_axis_aligned :
  forall (data : JoystickData) (c : ControlsState),
    (0.2 <? force data)%float = true ->
    In (local_direction (onMove data c))
      [ THREE.zero; THREE.mkVector3 0 0 (-5); THREE.mkVector3 0 0 5;
        THREE.mkVector3 (-5) 0 0; THREE.mkVector3 5 0 0 ].
Proof.
  intros data c Hforce. rewrite (onMove_strong data c Hforce).
  pose proof (sectors_exclusive (angle_degree data)) as Hex.
  cbv zeta in *.
  destruct ((45 <? angle_degree data)%float && (angle_degree data <? 135)%float),
    ((225 <? angle_degree data)%float && (angle_degree data <? 315)%float),
    ((135 <=? angle_degree data)%float && (angle_degree data <=? 225)%float),
    ((angle_degree data <=? 45)%float || (315 <=? angle_degree data)%float);
    simpl in Hex; try lia; simpl; auto 6.
Qed.

Lemma onMove_axis_aligned_witness :
  In (local_direction
        (onMove (mkJoystick 100 0.7)
           (mkControls false false true false false false)))
    [ THREE.zero; THREE.mkVector3 0 0 (-5); THREE.mkVector3 0 0 5;
      THREE.mkVector3 (-5) 0 0; THREE.mkVector3 5 0 0 ].
Proof.
  exact (onMove_axis_aligned (mkJoystick 100 0.7)
           (mkControls false false true false false false) eq_refl).
Defined.

(** X8.  Releasing the joystick stops the player whatever was held before:
    the four directions are cleared (keys held on the keyboard included),
    the intent vector is zero, and [jump] and [fire] are as they were.  A
    move before the release makes no difference. *)
Theorem onEnd_stops :
  forall (data : JoystickData) (c : ControlsState),
    directions_set (onEnd c) = 0%nat
    /\ local_direction (onEnd c) = THREE.zero
    /\ jump (onEnd c) = jump c
    /\ fire (onEnd c) = fire c
    /\ onEnd (onMove data c) = onEnd c.
Proof.
  intros data c. repeat apply conj; try reflexivity.
  unfold onMove. destruct (0.2 <? force data)%float; reflexivity.
Qed.

(** ** The player controller: speed and the frame *)

(** X9.  The player moves at one speed: the length of the intent vector
    before rotation is exactly 5 when the keys held give a direction, on a
    diagonal as well as along an axis, and 0 when they cancel or none is
    held. *)
Theorem local_direction_speed :
  forall c : ControlsState,
    THREE.length (local_direction c)
    = if xorb (forward c) (backward c) || xorb (left c) (right c)
      then 5%float else 0%float.
Proof.
  intros [fw bw l r j f]. destruct fw, bw, l, r; reflexivity.
Qed.

Section FrameProperties.

Variable applyEuler : THREE.Euler -> THREE.Vector3 -> THREE.Vector3.
Variable castRay : PhysicsWorld -> THREE.Vector3 -> option float.

(** X10.  Whatever the jump flag and whatever the ground, a frame leaves
    the vertical velocity of the body as the engine had it (a binary32
    number), and the horizontal velocity it leaves is the direction
    rounded to binary32. *)
Theorem useFrame_keeps_vertical_velocity :
  forall (rotation : THREE.Euler) (c : ControlsState) (body : RigidBody),
    fround (THREE.y (linvel body)) = THREE.y (linvel body) ->
    option_map linvel
      (body_after (useFrame applyEuler castRay rotation c (Some body)))
    = Some (THREE.mkVector3
              (fround (THREE.x (direction applyEuler rotation c)))
              (THREE.y (linvel body))
              (fround (THREE.z (direction applyEuler rotation c)))).
Proof.
  intros rotation c body Hy. rewrite useFrame_attached. simpl.
  rewrite Hy. reflexivity.
Qed.

(** X11.  A frame never moves the body itself and never detaches it: the
    position after the frame is the position before, for an attached and
    for a missing body alike; only the velocity is written. *)
Theorem useFrame_keeps_translation :
  forall (rotation : THREE.Euler) (c : ControlsState)
         (bodyRef : option RigidBody),
    option_map translation
      (body_after (useFrame applyEuler castRay rotation c bodyRef))
    = option_map translation bodyRef.
Proof.
  intros rotation c [body |]; reflexivity.
Qed.

End FrameProperties.

(** Falling at 3 units/s with jump, forward and left held, camera not
    rotated, ground within reach of the ray: the frame keeps the fall and
    writes the diagonal speed, rounded. *)
Lemma useFrame_keeps_vertical_velocity_witness :
  option_map linvel
    (body_after
       (useFrame (fun _ v => v) (fun _ _ => Some 1%float) (THREE.mkEuler 0 0 0)
          (mkControls true false true false true false)
          (Some (mkBody (THREE.mkVector3 1 (-3) 1) (THREE.mkVector3 0 4 0)))))
  = Some (THREE.mkVector3 (-3.5355339050292969) (-3) (-3.5355339050292969)).
Proof.
  exact (useFrame_keeps_vertical_velocity (fun _ v => v)
           (fun _ _ => Some 1%float) (THREE.mkEuler 0 0 0)
           (mkControls true false true false true false)
           (mkBody (THREE.mkVector3 1 (-3) 1) (THREE.mkVector3 0 4 0))
           eq_refl).
Defined.

(** ** The world: removal *)

Lemma In_handleRemoveBlock (i : string) (w : list Block) (b : Block) :
  In b (handleRemoveBlock i w) <-> In b w /\ id b <> i.
Proof.
  unfold handleRemoveBlock. rewrite filter_In, negb_true_iff.
  split; intros [Hin H]; (split; [exact Hin |]).
  - apply String.eqb_neq. exact H.
  - apply String.eqb_neq. exact H.
Qed.

Lemma handleRemoveBlock_ids (i : string) (w : list Block) (j : string) :
  In j (map id (handleRemoveBlock i w)) <-> In j (map id w) /\ j <> i.
Proof.
  rewrite !in_map_iff. split.
  - intros (b & <- & Hb). apply In_handleRemoveBlock in Hb.
    destruct Hb as [Hb Hne]. split; [exists b; split; auto | exact Hne].
  - intros [(b & <- & Hb) Hne]. exists b. split; [reflexivity |].
    apply In_handleRemoveBlock. split; assumption.
Qed.

Lemma handleRemoveBlock_length (i : string) (w : list Block) :
  (List.length (handleRemoveBlock i w) <= List.length w)%nat.
Proof.
  induction w as [| b w IH]; simpl; [lia |].
  destruct (negb (String.eqb (id b) i)); simpl; lia.
Qed.

(** X12.  Removing an id leaves the world as it is exactly when no block
    carries the id: a missing id is no error, and the removal of a present
    id is never silently lost. *)
Theorem remove_noop_iff_absent :
  forall (i : string) (w : list Block),
    handleRemoveBlock i w = w <-> ~ In i (map id w).
Proof.
  intros i w. split.
  - intros E Hin. rewrite <- E in Hin.
    apply handleRemoveBlock_ids in Hin. destruct Hin as [_ Hne].
    apply Hne. reflexivity.
  - apply handleRemoveBlock_absent.
Qed.

(** X13.  After a removal no block carries the removed id, the blocks left
    are exactly the blocks with another id, in their order, and removing
    the same id again changes nothing. *)
Theorem remove_postcondition :
  forall (i : string) (w : list Block),
    ~ In i (map id (handleRemoveBlock i w))
    /\ (forall b : Block,
          In b (handleRemoveBlock i w) <-> In b w /\ id b <> i)
    /\ handleRemoveBlock i (handleRemoveBlock i w) = handleRemoveBlock i w.
Proof.
  intros i w.
  assert (Hgone : ~ In i (map id (handleRemoveBlock i w))).
  { intros Hin. apply handleRemoveBlock_ids in Hin.
    destruct Hin as [_ Hne]. apply Hne. reflexivity. }
  repeat apply conj.
  - exact Hgone.
  - intros b. apply In_handleRemoveBlock.
  - apply handleRemoveBlock_absent. exact Hgone.
Qed.

(** X14.  Removals commute: the order in which two ids are removed does
    not matter. *)
Theorem remove_commutes :
  forall (i j : string) (w : list Block),
    handleRemoveBlock i (handleRemoveBlock j w)
    = handleRemoveBlock j (handleRemoveBlock i w).
Proof.
  intros i j w. induction w as [| b w IH]; [reflexivity |].
  simpl.
  destruct (String.eqb (id b) j) eqn:Ej, (String.eqb (id b) i) eqn:Ei;
    simpl; rewrite ?Ej, ?Ei; simpl; rewrite IH; reflexivity.
Qed.

Lemma NoDup_ids_remove (i : string) (w : list Block) :
  NoDup (map id w) -> NoDup (map id (handleRemoveBlock i w)).
Proof.
  induction w as [| b w IH]; intros H; [constructor |].
  simpl in *. inversion H as [| ? ? Hnotin Hnodup]; subst.
  destruct (negb (String.eqb (id b) i)); [| apply IH; exact Hnodup].
  simpl. constructor; [| apply IH; exact Hnodup].
  intros Hin. apply handleRemoveBlock_ids in Hin. apply Hnotin, Hin.
Qed.

Lemma handleRemoveBlock_length_present (i : string) (w : list Block) :
  NoDup (map id w) -> In i (map id w) ->
  S (List.length (handleRemoveBlock i w)) = List.length w.
Proof.
  induction w as [| b w IH]; intros Hnd Hin; [contradiction |].
  simpl in *. inversion Hnd as [| ? ? Hnotin Hnodup]; subst.
  destruct (String.eqb_spec (id b) i) as [E | E]; simpl.
  - subst i. rewrite (handleRemoveBlock_absent _ _ Hnotin). reflexivity.
  - f_equal. apply IH; [exact Hnodup |].
    destruct Hin as [Hin | Hin]; [contradiction | exact Hin].
Qed.

(** X15.  In a world without duplicate ids, removing the id of a block
    takes away exactly one block, and the ids stay without duplicates. *)
Theorem remove_exactly_one :
  forall (i : string) (w : list Block),
    NoDup (map id w) -> In i (map id w) ->
    S (List.length (handleRemoveBlock i w)) = List.length w
    /\ NoDup (map id (handleRemoveBlock i w)).
Proof.
  intros i w Hnd Hin. split.
  - apply handleRemoveBlock_length_present; assumption.
  - apply NoDup_ids_remove. exact Hnd.
Qed.

Lemma remove_exactly_one_witness :
  S (List.length
       (handleRemoveBlock "0-4-0"
          [mkBlock "0-3-0" (0, 3, 0) WOOD; mkBlock "0-4-0" (0, 4, 0) WOOD;
           mkBlock "0-5-0" (0, 5, 0) LEAVES]))
  = 3%nat
  /\ NoDup
       (map id
          (handleRemoveBlock "0-4-0"
             [mkBlock "0-3-0" (0, 3, 0) WOOD; mkBlock "0-4-0" (0, 4, 0) WOOD;
              mkBlock "0-5-0" (0, 5, 0) LEAVES])).
Proof.
  apply (remove_exactly_one "0-4-0"
           [mkBlock "0-3-0" (0, 3, 0) WOOD; mkBlock "0-4-0" (0, 4, 0) WOOD;
            mkBlock "0-5-0" (0, 5, 0) LEAVES]).
  - apply distinct_NoDup. reflexivity.
  - simpl. right. left. reflexivity.
Defined.

(** ** The ids of positions *)

Lemma digits_nodash (d : Decimal.uint) :
  nodash (NilEmpty.string_of_uint d) = true.
Proof. induction d; simpl; auto. Qed.

Lemma numeral_nodash (d : Decimal.uint) :
  nodash (NilZero.string_of_uint d) = true
  /\ NilZero.string_of_uint d <> EmptyString.
Proof.
  destruct d; (split; [| discriminate]); try reflexivity;
    match goal with
    | |- nodash (NilZero.string_of_uint ?n) = true =>
        exact (digits_nodash n)
    end.
Qed.

(** Two strings without a dash that are followed by a dash: the dash
    tells where each ends. *)
Lemma nodash_split (u : string) : forall (u' r r' : string),
  nodash u = true -> nodash u' = true ->
  (u ++ String "-" r)%string = (u' ++ String "-" r')%string ->
  u = u' /\ r = r'.
Proof.
  induction u as [| c u IH]; intros [| c' u'] r r' Hu Hu' E; simpl in *.
  - injection E as ->. split; reflexivity.
  - injection E as <- _. discriminate Hu'.
  - injection E as -> _. discriminate Hu.
  - injection E as -> E.
    apply andb_true_iff in Hu, Hu'. destruct Hu as [_ Hu], Hu' as [_ Hu'].
    destruct (IH u' r r' Hu Hu' E) as [-> ->]. split; reflexivity.
Qed.

(** The numeral of an integer: digits, after a dash when it is negative. *)
Lemma show_shape (n : Z) :
  exists d : string,
    nodash d = true /\ d <> EmptyString
    /\ show n = if n <? 0 then String "-" d else d.
Proof.
  destruct n as [| p | p]; unfold show; simpl.
  - exists "0"%string. repeat split. discriminate.
  - exists (NilZero.string_of_uint (Pos.to_uint p)).
    destruct (numeral_nodash (Pos.to_uint p)). auto.
  - exists (NilZero.string_of_uint (Pos.to_uint p)).
    destruct (numeral_nodash (Pos.to_uint p)). auto.
Qed.

Lemma show_inj (a b : Z) : show a = show b -> a = b.
Proof.
  unfold show. intros E. apply DecimalZ.to_int_inj.
  assert (Hnn : forall n, Z.to_int n <> Decimal.Pos Decimal.Nil
                          /\ Z.to_int n <> Decimal.Neg Decimal.Nil).
  { intros [| p | p]; simpl; split; try discriminate;
      intros [= H]; exact (Unsigned.to_uint_nonnil p H). }
  assert (H : Some (Z.to_int a) = Some (Z.to_int b)).
  { rewrite <- (NilZero.isi (Z.to_int a)), <- (NilZero.isi (Z.to_int b)), E;
      try apply Hnn. reflexivity. }
  injection H as H. exact H.
Qed.

Lemma show_prefix_inj (a a' : Z) (r r' : string) :
  (show a ++ String "-" r)%string = (show a' ++ String "-" r')%string ->
  a = a' /\ r = r'.
Proof.
  intros E.
  destruct (show_shape a) as (d & Hd & Hne & Ha).
  destruct (show_shape a') as (d' & Hd' & Hne' & Ha').
  assert (Hshow : show a = show a' /\ r = r').
  { rewrite Ha, Ha' in *.
    destruct (a <? 0), (a' <? 0); simpl in E.
    - injection E as E. destruct (nodash_split d d' r r' Hd Hd' E) as [-> ->].
      split; reflexivity.
    - destruct d' as [| c d']; [contradiction Hne'; reflexivity |].
      simpl in E. injection E as <- _. discriminate Hd'.
    - destruct d as [| c d]; [contradiction Hne; reflexivity |].
      simpl in E. injection E as -> _. discriminate Hd.
    - destruct (nodash_split d d' r r' Hd Hd' E) as [-> ->].
      split; reflexivity. }
  destruct Hshow as [Hs Hr]. split; [apply show_inj; exact Hs | exact Hr].
Qed.

Lemma id_derived_from_inj (p q : Position) :
  id_derived_from p = id_derived_from q -> p = q.
Proof.
  destruct p as [[p0 p1] p2], q as [[q0 q1] q2]. unfold id_derived_from.
  intros E.
  apply show_prefix_inj in E. destruct E as [-> E].
  apply show_prefix_inj in E. destruct E as [-> E].
  apply show_inj in E. subst. reflexivity.
Qed.

(** X16.  Different positions with safe-integer coordinates have
    different ids: the dashes that separate the coordinates cannot be
    confused with the minus signs of negative coordinates. *)
Theorem distinct_positions_distinct_ids :
  forall p q : Position,
    safe_position p -> safe_position q ->
    p <> q -> id_derived_from p <> id_derived_from q.
Proof.
  intros p q _ _ Hpq E. apply Hpq. apply id_derived_from_inj. exact E.
Qed.

Lemma safe_position_small (p0 p1 p2 : Z) :
  -1000 <= p0 <= 1000 -> -1000 <= p1 <= 1000 -> -1000 <= p2 <= 1000 ->
  safe_position (p0, p1, p2).
Proof.
  intros H0 H1 H2. unfold safe_position, safe_integer.
  change (2 ^ 53 - 1) with 9007199254740991. lia.
Qed.

Lemma distinct_positions_distinct_ids_witness :
  id_derived_from (1, -2, 3) <> id_derived_from (1, 2, -3)
  /\ id_derived_from (0, 4, -1) <> id_derived_from (0, -4, 1).
Proof.
  split; apply distinct_positions_distinct_ids;
    try (apply safe_position_small; lia); discriminate.
Defined.

(** ** The world: addition and the invariant *)

Lemma NoDup_snoc (l : list string) (a : string) :
  NoDup l -> ~ In a l -> NoDup (l ++ [a]).
Proof.
  induction l as [| h l IH]; intros Hl Ha; simpl.
  - constructor; [intros [] | constructor].
  - inversion Hl as [| ? ? Hh Hl']; subst. constructor.
    + rewrite in_app_iff. intros [H | [H | []]]; [exact (Hh H) |].
      apply Ha. left. symmetry. exact H.
    + apply IH; [exact Hl' |]. intros H. apply Ha. right. exact H.
Qed.

(** In a well-formed world an id is in use exactly when its position is
    occupied. *)
Lemma well_formed_id_in_use (w : list Block) (p : Position) :
  well_formed w ->
  (In (id_derived_from p) (map id w) <-> In p (map pos w)).
Proof.
  intros [_ Hder]. rewrite !in_map_iff. split.
  - intros (b & Hid & Hb). exists b. split; [| exact Hb].
    rewrite (Hder b Hb) in Hid. apply id_derived_from_inj. exact Hid.
  - intros (b & Hpos & Hb). exists b. split; [| exact Hb].
    rewrite (Hder b Hb), Hpos. reflexivity.
Qed.

Lemma well_formed_remove (i : string) (w : list Block) :
  well_formed w -> well_formed (handleRemoveBlock i w).
Proof.
  intros [Hnd Hder]. split.
  - apply NoDup_ids_remove. exact Hnd.
  - intros b Hb. apply In_handleRemoveBlock in Hb. apply Hder, Hb.
Qed.

Lemma well_formed_generate : well_formed generate.
Proof.
  split.
  - apply distinct_NoDup. exact generate_ids_distinct.
  - exact generate_ids_derived.
Qed.

(** X17.  In a world of safe-integer positions, adding a block at a
    safe-integer position that no block occupies keeps the world well
    formed: ids stay unique and derived from the positions.  The new block
    is a STONE block, last in the array. *)
Theorem add_at_free_position :
  forall (p : Position) (w : list Block),
    safe_position p ->
    (forall b : Block, In b w -> safe_position (pos b)) ->
    well_formed w -> ~ In p (map pos w) ->
    well_formed (handleAddBlock p w)
    /\ handleAddBlock p w = w ++ [mkBlock (id_derived_from p) p STONE].
Proof.
  intros p w _ _ Hwf Hfree. rewrite handleAddBlock_id. split; [| reflexivity].
  split.
  - rewrite map_app. apply NoDup_snoc; [exact (proj1 Hwf) |].
    intros Hin. apply Hfree. apply (well_formed_id_in_use w p Hwf). exact Hin.
  - intros b Hb. apply in_app_iff in Hb. destruct Hb as [Hb | [<- | []]].
    + apply (proj2 Hwf). exact Hb.
    + reflexivity.
Qed.

Lemma add_at_free_position_witness :
  well_formed
    (handleAddBlock (0, 6, 0)
       [mkBlock "0-4-0" (0, 4, 0) WOOD; mkBlock "0-4--1" (0, 4, -1) LEAVES])
  /\ handleAddBlock (0, 6, 0)
       [mkBlock "0-4-0" (0, 4, 0) WOOD; mkBlock "0-4--1" (0, 4, -1) LEAVES]
     = [mkBlock "0-4-0" (0, 4, 0) WOOD; mkBlock "0-4--1" (0, 4, -1) LEAVES]
       ++ [mkBlock (id_derived_from (0, 6, 0)) (0, 6, 0) STONE].
Proof.
  apply add_at_free_position.
  - apply safe_position_small; lia.
  - intros b [<- | [<- | []]]; apply safe_position_small; lia.
  - split.
    + apply distinct_NoDup. reflexivity.
    + intros b [<- | [<- | []]]; reflexivity.
  - simpl. intros [H | [H | []]]; discriminate H.
Defined.

(** X18.  Adding a block whose id is in use breaks the uniqueness of ids:
    the code has no collision check. *)
Theorem add_at_used_id_duplicates :
  forall (p : Position) (w : list Block),
    In (id_derived_from p) (map id w) ->
    ~ NoDup (map id (handleAddBlock p w)).
Proof.
  intros p w Hin Hnd. rewrite handleAddBlock_id, map_app in Hnd.
  simpl in Hnd. apply NoDup_remove_2 in Hnd.
  apply Hnd. rewrite app_nil_r. exact Hin.
Qed.

Lemma add_at_used_id_duplicates_witness :
  ~ NoDup (map id (handleAddBlock (0, 3, 0) [mkBlock "0-3-0" (0, 3, 0) WOOD])).
Proof.
  apply add_at_used_id_duplicates. left. reflexivity.
Defined.

(** X19.  In a well-formed world of safe-integer positions, placing a
    block at a free safe-integer position and removing it by its id gives
    the world back. *)
Theorem add_remove_at_free_position :
  forall (p : Position) (w : list Block),
    safe_position p ->
    (forall b : Block, In b w -> safe_position (pos b)) ->
    well_formed w -> ~ In p (map pos w) ->
    handleRemoveBlock (id_derived_from p) (handleAddBlock p w) = w.
Proof.
  intros p w _ _ Hwf Hfree. rewrite add_then_remove.
  apply handleRemoveBlock_absent. intros Hin. apply Hfree.
  apply (well_formed_id_in_use w p Hwf). exact Hin.
Qed.

Lemma add_remove_at_free_position_witness :
  handleRemoveBlock (id_derived_from (3, 3, 3))
    (handleAddBlock (3, 3, 3)
       [mkBlock "0-3-0" (0, 3, 0) WOOD; mkBlock "-1-4-0" (-1, 4, 0) LEAVES])
  = [mkBlock "0-3-0" (0, 3, 0) WOOD; mkBlock "-1-4-0" (-1, 4, 0) LEAVES].
Proof.
  apply add_remove_at_free_position.
  - apply safe_position_small; lia.
  - intros b [<- | [<- | []]]; apply safe_position_small; lia.
  - split.
    + apply distinct_NoDup. reflexivity.
    + intros b [<- | [<- | []]]; reflexivity.
  - simpl. intros [H | [H | []]]; discriminate H.
Defined.

(** ** The fire effect on the world *)

Lemma fireEffect_blocks (now now' : Z) (hits : list Intersection)
    (s : Session) :
  blocks (fireEffect now now' hits s) = blocks s
  \/ exists i : string,
       i <> EmptyString
       /\ blocks (fireEffect now now' hits s) = handleRemoveBlock i (blocks s).
Proof.
  unfold fireEffect.
  destruct (fire (controls s) && (200 <? now - lastShot s)); [| left; reflexivity].
  destruct hits as [| h hits]; [left; reflexivity |].
  destruct (userData_id h) as [i |]; [| left; reflexivity].
  simpl. destruct (String.eqb_spec i "") as [E | E]; [left; reflexivity |].
  right. exists i. split; [exact E | reflexivity].
Qed.

(** X20.  A run of the fire effect never adds a block and never changes
    one: every block of the world after the run was in the world before,
    and the world has not grown. *)
Theorem fireEffect_never_adds :
  forall (now now' : Z) (hits : list Intersection) (s : Session),
    (forall b : Block,
        In b (blocks (fireEffect now now' hits s)) -> In b (blocks s))
    /\ (List.length (blocks (fireEffect now now' hits s))
        <= List.length (blocks s))%nat.
Proof.
  intros now now' hits s.
  destruct (fireEffect_blocks now now' hits s) as [-> | (i & _ & ->)].
  - split; [auto | lia].
  - split; [| apply handleRemoveBlock_length].
    intros b Hb. apply In_handleRemoveBlock in Hb. apply Hb.
Qed.



(** ** A whole session of shooting *)

Lemma well_formed_fireEffect (now now' : Z) (hits : list Intersection)
    (s : Session) :
  well_formed (blocks s) -> well_formed (blocks (fireEffect now now' hits s)).
Proof.
  intros Hwf.
  destruct (fireEffect_blocks now now' hits s) as [-> | (i & _ & ->)].
  - exact Hwf.
  - apply well_formed_remove. exact Hwf.
Qed.

Lemma incl_fireEffect (now now' : Z) (hits : list Intersection) (s : Session) :
  incl (blocks (fireEffect now now' hits s)) (blocks s).
Proof.
  destruct (fireEffect_blocks now now' hits s) as [-> | (i & _ & ->)].
  - apply incl_refl.
  - intros b Hb. apply In_handleRemoveBlock in Hb. apply Hb.
Qed.

Lemma blocks_mkSession (w : list Block) (c : ControlsState) (t : Z) :
  blocks (mkSession w c t) = w.
Proof. reflexivity. Qed.

Lemma play_invariant (runs : list FireRun) :
  forall s : Session,
    well_formed (blocks s) ->
    well_formed (blocks (play runs s)) /\ incl (blocks (play runs s)) (blocks s).
Proof.
  induction runs as [| r runs IH]; intros s Hwf.
  - split; [exact Hwf | apply incl_refl].
  - unfold play. simpl. fold (play runs).
    set (s1 := fireEffect (run_now r) (run_now' r) (run_hits r)
                 (setControls (run_input r) s)).
    assert (Hwf1 : well_formed (blocks s1))
      by (apply well_formed_fireEffect; exact Hwf).
    destruct (IH s1 Hwf1) as [Hwf' Hincl]. split; [exact Hwf' |].
    apply (incl_tran Hincl).
    apply (incl_fireEffect _ _ _ (setControls (run_input r) s)).
Qed.

(** X23.  Through a whole session that starts from the generated world,
    whatever the input layer writes and whatever the rays hit, the world
    stays well formed (unique ids, derived from the positions) and holds
    only blocks that were generated: shooting cannot create or alter a
    block. *)
Theorem session_world_invariant :
  forall (runs : list FireRun) (c : ControlsState) (t : Z),
    well_formed (blocks (play runs (mkSession generate c t)))
    /\ incl (blocks (play runs (mkSession generate c t))) generate.
Proof.
  intros runs c t.
  pose proof (play_invariant runs (mkSession generate c t)) as H.
  rewrite (blocks_mkSession generate c t) in H.
  apply H. exact well_formed_generate.
Qed.

(** ** The name of the world *)

Lemma replace_class_clean (s : geminiService.JSString) (u : N) :
  In u (geminiService.replace_class s) -> geminiService.in_class u = false.
Proof.
  unfold geminiService.replace_class. rewrite filter_In.
  intros [_ H]. apply negb_true_iff. exact H.
Qed.

Lemma forallb_clean (s : geminiService.JSString) :
  forallb (fun u => negb (geminiService.in_class u)) s = true ->
  forall u : N, In u s -> geminiService.in_class u = false.
Proof.
  intros H u Hu. rewrite forallb_forall in H.
  apply negb_true_iff. apply H. exact Hu.
Qed.

Lemma generateWorldName_nonempty
    (API_KEY : option geminiService.JSString)
    (outcome : geminiService.Outcome) :
  geminiService.generateWorldName API_KEY outcome <> []
  /\ forall u : N,
       In u (geminiService.generateWorldName API_KEY outcome) ->
       geminiService.in_class u = false.
Proof.
  unfold geminiService.generateWorldName.
  destruct (negb (geminiService.key_present API_KEY)).
  - split; [discriminate | apply forallb_clean; reflexivity].
  - destruct outcome as [| [text |]].
    + split; [discriminate | apply forallb_clean; reflexivity].
    + destruct (geminiService.replace_class (geminiService.trim text))
        as [| u name] eqn:E.
      * split; [discriminate | apply forallb_clean; reflexivity].
      * split; [discriminate |]. rewrite <- E. apply replace_class_clean.
    + split; [discriminate | apply forallb_clean; reflexivity].
Qed.

(** X24.  Whatever the key and whatever the service does (answer, answer
    without text, failure), the name that [generateWorldName] resolves with
    is never empty and holds no double quote, apostrophe or asterisk. *)
Theorem generateWorldName_clean :
  forall (API_KEY : option geminiService.JSString)
         (outcome : geminiService.Outcome),
    geminiService.generateWorldName API_KEY outcome <> []
    /\ forall u : N,
         In u (geminiService.generateWorldName API_KEY outcome) ->
         geminiService.in_class u = false.
Proof. exact generateWorldName_nonempty. Qed.

(** Trimming comes before the characters are removed, so a name can still
    begin with a space: the answer ["* Dawn *"] gives [" Dawn "]. *)
Lemma generateWorldName_keeps_inner_space :
  geminiService.generateWorldName (Some (geminiService.lit "key"))
    (geminiService.Resolved (Some (geminiService.lit "* Dawn *")))
  = geminiService.lit " Dawn ".
Proof. reflexivity. Qed.

(** ** The landing page *)

Lemma App_step_invariant (s : App.State) (e : App.Event) :
  (App.isGameStarted s = true -> App.isLoading s = false) ->
  App.worldName s <> [] ->
  (App.isGameStarted (App.step s e) = true -> App.isLoading (App.step s e) = false)
  /\ App.worldName (App.step s e) <> [].
Proof.
  intros Hstart Hname. destruct e as [API_KEY outcome |]; simpl.
  - split; [reflexivity |].
    apply (proj1 (generateWorldName_nonempty API_KEY outcome)).
  - destruct s as [name started loading]. simpl in *.
    destruct started, loading; simpl; split; auto; discriminate.
Qed.

Lemma App_fold_invariant (events : list App.Event) :
  forall s : App.State,
    (App.isGameStarted s = true -> App.isLoading s = false) ->
    App.worldName s <> [] ->
    (App.isGameStarted (fold_left App.step events s) = true ->
     App.isLoading (fold_left App.step events s) = false)
    /\ App.worldName (fold_left App.step events s) <> [].
Proof.
  induction events as [| e events IH]; intros s Hstart Hname; simpl.
  - split; assumption.
  - destruct (App_step_invariant s e Hstart Hname) as [H1 H2].
    apply IH; assumption.
Qed.

(** X25.  Whatever the order of clicks and of the settling of the name,
    the game is never started while the name is loading, and the name of
    the world is never empty. *)
Theorem App_never_starts_while_loading :
  forall events : list App.Event,
    (App.isGameStarted (App.run events) = true ->
     App.isLoading (App.run events) = false)
    /\ App.worldName (App.run events) <> []
    /\ (forall name button,
          App.render (App.run events) = App.Landing name button ->
          name <> [] /\ button = negb (App.isLoading (App.run events))).
Proof.
  intros events.
  destruct (App_fold_invariant events App.init) as [Hstart Hname];
    [discriminate | discriminate |].
  fold (App.run events) in Hstart, Hname.
  repeat apply conj; [exact Hstart | exact Hname |].
  intros name button. unfold App.render.
  destruct (App.isGameStarted (App.run events)); [discriminate |].
  intros [= <- <-]. split; [| reflexivity].
  destruct (App.isLoading (App.run events)); [discriminate | exact Hname].
Qed.

Lemma App_started_stays (events : list App.Event) :
  forall s : App.State,
    App.isGameStarted s = true ->
    App.isGameStarted (fold_left App.step events s) = true.
Proof.
  induction events as [| e events IH]; intros s Hs; simpl; [exact Hs |].
  apply IH. destruct e as [API_KEY outcome |]; simpl; [exact Hs |].
  unfold App.render. rewrite Hs. exact Hs.
Qed.

Lemma App_loaded_stays (events : list App.Event) :
  forall s : App.State,
    App.isLoading s = false ->
    App.isLoading (fold_left App.step events s) = false.
Proof.
  induction events as [| e events IH]; intros s Hs; simpl; [exact Hs |].
  apply IH. destruct e as [API_KEY outcome |]; simpl; [reflexivity |].
  unfold App.render. rewrite Hs.
  destruct (App.isGameStarted s); exact Hs.
Qed.

(** X26.  Starting the game takes a settled name and then a click: clicks
    made while the name is loading are lost, and once the name has
    settled, at whatever point, a later click starts the game, which then
    stays started. *)
Theorem App_start_needs_settled_name :
  (forall events : list App.Event,
      (forall e, In e events -> e = App.Click) -> App.run events = App.init)
  /\ (forall (before between after : list App.Event)
             (API_KEY : option geminiService.JSString)
             (outcome : geminiService.Outcome),
        App.isGameStarted
          (App.run (before ++ App.Settled API_KEY outcome
                             :: between ++ App.Click :: after))
        = true).
Proof.
  split.
  - intros events. unfold App.run.
    assert (H : forall s, App.isLoading s = true ->
                          App.isGameStarted s = false ->
                          (forall e, In e events -> e = App.Click) ->
                          fold_left App.step events s = s).
    { induction events as [| e events IH]; intros s Hl Hg Hall; [reflexivity |].
      simpl. rewrite (Hall e (or_introl eq_refl)). simpl.
      unfold App.render. rewrite Hg, Hl. simpl.
      apply IH; [exact Hl | exact Hg |].
      intros e' He'. apply Hall. right. exact He'. }
    apply H; reflexivity.
  - intros before between after API_KEY outcome. unfold App.run.
    rewrite fold_left_app. simpl. rewrite fold_left_app. simpl.
    apply App_started_stays.
    set (s := fold_left App.step between _).
    assert (Hl : App.isLoading s = false)
      by (apply App_loaded_stays; reflexivity).
    unfold App.render. rewrite Hl.
    destruct (App.isGameStarted s) eqn:Es; [exact Es | reflexivity].
Qed.

(** ** Shooting and moving *)

(** X27.  Shooting never interferes with moving: a run of the fire effect,
    processed or not, leaves the five other flags as they are, and with
    them the intent vector of the player. *)
Theorem fireEffect_keeps_movement :
  forall (now now' : Z) (hits : list Intersection) (s : Session),
    (forall k : Flag, k <> Fire ->
        flag k (controls (fireEffect now now' hits s)) = flag k (controls s))
    /\ local_direction (controls (fireEffect now now' hits s))
       = local_direction (controls s).
Proof.
  intros now now' hits s.
  assert (H : controls (fireEffect now now' hits s) = controls s
              \/ controls (fireEffect now now' hits s)
                 = mkControls (forward (controls s)) (backward (controls s))
                     (left (controls s)) (right (controls s))
                     (jump (controls s)) false).
  { unfold fireEffect.
    destruct (fire (controls s) && (200 <? now - lastShot s));
      [| left; reflexivity].
    right. destruct hits as [| h hits]; [reflexivity |].
    destruct (truthy_id (userData_id h)); reflexivity. }
  destruct H as [-> | ->].
  - split; reflexivity.
  - split; [| reflexivity].
    intros k Hk. destruct k; try reflexivity. contradiction Hk. reflexivity.
Qed.
